(** * Repeat: the replay node of husky_trainer (src/Repeat.cpp)

    A shallow embedding of the [Repeat] class: the playback clock, the
    three cursors over the taught sequences, the PLAY / PAUSE / ERROR status
    machine, the joystick callback, the per-scan correction ([updateError])
    and the main loop ([spin]).

    Conventions of the embedding.
    - [ros::Time] and [ros::Duration] are integer nanosecond counts in [Z];
      the range checks of the ROS time classes are not modelled.
    - A [std::vector] is a [list]; an iterator into it is its offset from
      [begin()], a [nat].  Dereferencing an offset that holds no element,
      and forming [end() - 1] on an empty vector, have no defined result in
      C++: the operations that do so end in [Undefined].
    - [double] is Rocq's binary64 [float].
    - Every [ros::Time::now()] is an argument of the operation that reads
      the clock.
    - What the node publishes, logs, and asks of its collaborators is
      appended to the [trace] field, oldest first; so is every thread it
      starts.
    - [spin] is the program of the main thread.  A correction thread runs
      [updateError] beside it on the same object, unsynchronised but for the
      mutex inside [updateError]; [updateError] is stated for one thread
      run by itself, and the results on [spin] are stated for cycles in
      which no scan is delivered. *)

From Stdlib Require Import ZArith List Bool Lia String Floats.
Import ListNotations.

Local Open Scope Z_scope.

(** ** Data model *)

Definition Time := Z.
Definition Duration := Z.

(** [enum Status] of Repeat.h, as the switch statements use it. *)
Inductive Status : Type := PLAY | PAUSE | ERROR.

Definition Status_eqb (a b : Status) : bool :=
  match a, b with
  | PLAY, PLAY | PAUSE, PAUSE | ERROR, ERROR => true
  | _, _ => false
  end.

Inductive Severity : Type := Info | Warn | Error.

(** The message types, the collaborators and the constants that Repeat.cpp
    takes from headers and libraries outside this file. *)
Class Externals : Type := {
  Twist : Type;                 (* geometry_msgs::Twist *)
  Pose : Type;                  (* geometry_msgs::Pose *)
  Cloud : Type;                 (* sensor_msgs::PointCloud2 *)
  Transform : Type;             (* tf::Transform *)
  TrajectoryError : Type;       (* husky_trainer::TrajectoryError *)
  CommandRepeater : Type;       (* the state of the command corrector *)
  RepeatConfig : Type;          (* husky_trainer::RepeatConfig *)
  idleTwistCommand : Twist;
  correctCommand : CommandRepeater -> Twist -> Twist * CommandRepeater;
  controller_updateError : CommandRepeater -> TrajectoryError -> CommandRepeater;
  controller_updateParams : CommandRepeater -> RepeatConfig -> CommandRepeater;
  config_lookahead : RepeatConfig -> Duration;
  customDistance : Pose -> Pose -> float;
  transFromPoseToPose : Pose -> Pose -> Transform;
  composeTransform : Transform -> Transform -> Transform;
  transformPointCloud : Transform -> Cloud -> Cloud;
  controlErrorOfTransformation : Transform -> TrajectoryError;
  stampedTwistOfString : string -> Time * Twist;     (* geo_util *)
  stampedPoseOfString : string -> Time * Pose;       (* geo_util *)
  anchorPointOfString : string -> string * Pose * Cloud;
                                (* AnchorPoint(line) and loadFromDisk() *)
  RB : nat;                     (* controller_mappings::RB *)
  X : nat                       (* controller_mappings::X *)
}.

Section Node.

Context {ext : Externals}.

Record TwistStamped : Type := {
  twist_stamp : Time;           (* header.stamp *)
  twist : Twist
}.

Record PoseStamped : Type := {
  pose_stamp : Time;            (* header.stamp *)
  pose : Pose
}.

Record AnchorPoint : Type := {
  name : string;
  getPosition : Pose;
  getCloud : Cloud
}.

(** The observable actions of the node. *)
Inductive Event : Type :=
| CommandPublished (t : Twist)                       (* commandRepeaterTopic *)
| ReferencePosePublished (p : Pose)                  (* referencePoseTopic *)
| AnchorPointSwitched (stamp : Time) (newAnchorPoint : string)
| ErrorReported (e : TrajectoryError)                (* errorReportingTopic *)
| CorrectCommandCalled (t : Twist)                   (* controller.correctCommand *)
| UpdateErrorCalled (e : TrajectoryError)            (* controller.updateError *)
| ServiceCalled (readings reference : Cloud)         (* icpService.call *)
| ThreadStarted (msg : Cloud)          (* boost::thread on updateError(msg) *)
| Logged (sev : Severity) (text : string) (arg : option Time).

(** The members of [Repeat] that the modelled methods read or write. *)
Record Repeat : Type := {
  commands : list TwistStamped;
  positions : list PoseStamped;
  anchorPoints : list AnchorPoint;
  commandCursor : nat;
  positionCursor : nat;
  anchorPointCursor : nat;
  currentStatus : Status;
  baseSimTime : Time;
  timePlaybackStarted : Time;
  lookahead : Duration;
  controller : CommandRepeater;
  tFromLidarToRobot : Transform;
  serviceCallLock : bool;       (* true while the mutex is held *)
  trace : list Event
}.

Definition set_commandCursor (c : nat) (s : Repeat) : Repeat :=
  {| commands := commands s; positions := positions s;
     anchorPoints := anchorPoints s; commandCursor := c;
     positionCursor := positionCursor s;
     anchorPointCursor := anchorPointCursor s;
     currentStatus := currentStatus s; baseSimTime := baseSimTime s;
     timePlaybackStarted := timePlaybackStarted s; lookahead := lookahead s;
     controller := controller s; tFromLidarToRobot := tFromLidarToRobot s;
     serviceCallLock := serviceCallLock s; trace := trace s |}.

Definition set_positionCursor (c : nat) (s : Repeat) : Repeat :=
  {| commands := commands s; positions := positions s;
     anchorPoints := anchorPoints s; commandCursor := commandCursor s;
     positionCursor := c;
     anchorPointCursor := anchorPointCursor s;
     currentStatus := currentStatus s; baseSimTime := baseSimTime s;
     timePlaybackStarted := timePlaybackStarted s; lookahead := lookahead s;
     controller := controller s; tFromLidarToRobot := tFromLidarToRobot s;
     serviceCallLock := serviceCallLock s; trace := trace s |}.

Definition set_anchorPointCursor (c : nat) (s : Repeat) : Repeat :=
  {| commands := commands s; positions := positions s;
     anchorPoints := anchorPoints s; commandCursor := commandCursor s;
     positionCursor := positionCursor s;
     anchorPointCursor := c;
     currentStatus := currentStatus s; baseSimTime := baseSimTime s;
     timePlaybackStarted := timePlaybackStarted s; lookahead := lookahead s;
     controller := controller s; tFromLidarToRobot := tFromLidarToRobot s;
     serviceCallLock := serviceCallLock s; trace := trace s |}.

Definition set_currentStatus (st : Status) (s : Repeat) : Repeat :=
  {| commands := commands s; positions := positions s;
     anchorPoints := anchorPoints s; commandCursor := commandCursor s;
     positionCursor := positionCursor s;
     anchorPointCursor := anchorPointCursor s;
     currentStatus := st; baseSimTime := baseSimTime s;
     timePlaybackStarted := timePlaybackStarted s; lookahead := lookahead s;
     controller := controller s; tFromLidarToRobot := tFromLidarToRobot s;
     serviceCallLock := serviceCallLock s; trace := trace s |}.

Definition set_baseSimTime (t : Time) (s : Repeat) : Repeat :=
  {| commands := commands s; positions := positions s;
     anchorPoints := anchorPoints s; commandCursor := commandCursor s;
     positionCursor := positionCursor s;
     anchorPointCursor := anchorPointCursor s;
     currentStatus := currentStatus s; baseSimTime := t;
     timePlaybackStarted := timePlaybackStarted s; lookahead := lookahead s;
     controller := controller s; tFromLidarToRobot := tFromLidarToRobot s;
     serviceCallLock := serviceCallLock s; trace := trace s |}.

Definition set_timePlaybackStarted (t : Time) (s : Repeat) : Repeat :=
  {| commands := commands s; positions := positions s;
     anchorPoints := anchorPoints s; commandCursor := commandCursor s;
     positionCursor := positionCursor s;
     anchorPointCursor := anchorPointCursor s;
     currentStatus := currentStatus s; baseSimTime := baseSimTime s;
     timePlaybackStarted := t; lookahead := lookahead s;
     controller := controller s; tFromLidarToRobot := tFromLidarToRobot s;
     serviceCallLock := serviceCallLock s; trace := trace s |}.

Definition set_lookahead (d : Duration) (s : Repeat) : Repeat :=
  {| commands := commands s; positions := positions s;
     anchorPoints := anchorPoints s; commandCursor := commandCursor s;
     positionCursor := positionCursor s;
     anchorPointCursor := anchorPointCursor s;
     currentStatus := currentStatus s; baseSimTime := baseSimTime s;
     timePlaybackStarted := timePlaybackStarted s; lookahead := d;
     controller := controller s; tFromLidarToRobot := tFromLidarToRobot s;
     serviceCallLock := serviceCallLock s; trace := trace s |}.

Definition set_controller (c : CommandRepeater) (s : Repeat) : Repeat :=
  {| commands := commands s; positions := positions s;
     anchorPoints := anchorPoints s; commandCursor := commandCursor s;
     positionCursor := positionCursor s;
     anchorPointCursor := anchorPointCursor s;
     currentStatus := currentStatus s; baseSimTime := baseSimTime s;
     timePlaybackStarted := timePlaybackStarted s; lookahead := lookahead s;
     controller := c; tFromLidarToRobot := tFromLidarToRobot s;
     serviceCallLock := serviceCallLock s; trace := trace s |}.

Definition set_serviceCallLock (b : bool) (s : Repeat) : Repeat :=
  {| commands := commands s; positions := positions s;
     anchorPoints := anchorPoints s; commandCursor := commandCursor s;
     positionCursor := positionCursor s;
     anchorPointCursor := anchorPointCursor s;
     currentStatus := currentStatus s; baseSimTime := baseSimTime s;
     timePlaybackStarted := timePlaybackStarted s; lookahead := lookahead s;
     controller := controller s; tFromLidarToRobot := tFromLidarToRobot s;
     serviceCallLock := b; trace := trace s |}.

Definition set_trace (tr : list Event) (s : Repeat) : Repeat :=
  {| commands := commands s; positions := positions s;
     anchorPoints := anchorPoints s; commandCursor := commandCursor s;
     positionCursor := positionCursor s;
     anchorPointCursor := anchorPointCursor s;
     currentStatus := currentStatus s; baseSimTime := baseSimTime s;
     timePlaybackStarted := timePlaybackStarted s; lookahead := lookahead s;
     controller := controller s; tFromLidarToRobot := tFromLidarToRobot s;
     serviceCallLock := serviceCallLock s; trace := tr |}.

(** ** The monad of member functions

    A member function reads and writes the object.  It returns, or it runs
    into behaviour that C++ leaves undefined, or (for a loop unrolled a
    bounded number of times) it is still running when the bound is used up. *)

Inductive Outcome (A : Type) : Type :=
| Returns (a : A) (s : Repeat)
| Undefined
| Unfinished.

Arguments Returns {A} a s.
Arguments Undefined {A}.
Arguments Unfinished {A}.

Definition M (A : Type) : Type := Repeat -> Outcome A.

Definition ret {A : Type} (a : A) : M A := fun s => Returns a s.

Definition bind {A B : Type} (c : M A) (k : A -> M B) : M B :=
  fun s => match c s with
           | Returns a s' => k a s'
           | Undefined => Undefined
           | Unfinished => Unfinished
           end.

Definition unfinished {A : Type} : M A := fun _ => Unfinished.

Definition gets {A : Type} (f : Repeat -> A) : M A := fun s => Returns (f s) s.

Definition modify (f : Repeat -> Repeat) : M unit := fun s => Returns tt (f s).

Definition lift {A : Type} (o : option A) : M A :=
  fun s => match o with Some a => Returns a s | None => Undefined end.

Definition emit (e : Event) : M unit :=
  modify (fun s => set_trace (trace s ++ [e]) s).

Definition when (b : bool) (c : M unit) : M unit := if b then c else ret tt.

(** The object a member function leaves behind, when it returns. *)
Definition exec {A : Type} (c : M A) (s : Repeat) : option Repeat :=
  match c s with Returns _ s' => Some s' | _ => None end.

(** [*it] for an iterator at offset [it] of vector [v]. *)
Definition deref {A : Type} (v : list A) (it : nat) : option A :=
  nth_error v it.

(** [v.end() - 1]: the iterator to the last element.  Stepping an iterator
    back needs an element before it; on an empty vector [end()] is
    [begin()] and there is none, so no value is defined. *)
Definition end_minus_one {A : Type} (v : list A) : option nat :=
  match v with
  | [] => None
  | _ :: _ => Some (List.length v - 1)%nat
  end.

End Node.

Arguments Returns {ext A} a s.
Arguments Undefined {ext A}.
Arguments Unfinished {ext A}.

Declare Scope node_scope.
Delimit Scope node_scope with node.
Notation "x <- c ;; k" := (bind c (fun x => k))
  (at level 61, c at next level, right associativity) : node_scope.
Notation "c ;; k" := (bind c (fun _ => k))
  (at level 61, right associativity) : node_scope.

Section Playback.

Context {ext : Externals}.
Local Open Scope node_scope.

(** ** Loading the teach and construction (lines 32-76, 264-319)

    A record file is [Some] list of its lines, or [None] when it cannot be
    opened.  Each loader returns the sequence and what it logs. *)

Definition loadCommands (file : option (list string))
  : list TwistStamped * list Event :=
  match file with
  | Some lines =>
      (map (fun line =>
              {| twist_stamp := fst (stampedTwistOfString line);
                 twist := snd (stampedTwistOfString line) |}) lines, [])
  | None => ([], [Logged Error "Could not open command file: speeds.sl" None])
  end.

Definition loadPositions (file : option (list string))
  : list PoseStamped * list Event :=
  match file with
  | Some lines =>
      (map (fun line =>
              {| pose_stamp := fst (stampedPoseOfString line);
                 pose := snd (stampedPoseOfString line) |}) lines, [])
  | None =>
      ([], [Logged Error "Could not open position file: positions.pl" None])
  end.

Definition loadAnchorPoints (file : option (list string))
  : list AnchorPoint * list Event :=
  match file with
  | Some lines =>
      (map (fun line =>
              {| name := fst (fst (anchorPointOfString line));
                 getPosition := snd (fst (anchorPointOfString line));
                 getCloud := snd (anchorPointOfString line) |}) lines, [])
  | None =>
      ([], [Logged Error
              "Could not open anchor points file: anchorPoints.apd" None])
  end.

(** The constructor, from the value [chdir] returned, the three files of
    the working directory, the corrector, the look-ahead of the first
    reconfiguration and the lidar transform.  The test
    [!chdir(...) != 0] holds exactly when [chdir] returned 0. *)
Definition Repeat_new (chdir : Z)
           (speeds positionsFile anchors : option (list string))
           (ctl : CommandRepeater) (ahead : Duration) (lidar : Transform)
  : Repeat :=
  {| commands := fst (loadCommands speeds);
     positions := fst (loadPositions positionsFile);
     anchorPoints := fst (loadAnchorPoints anchors);
     commandCursor := 0;
     positionCursor := 0;
     anchorPointCursor := 0;
     currentStatus := PAUSE;
     baseSimTime := 0;
     timePlaybackStarted := 0;
     lookahead := ahead;
     controller := ctl;
     tFromLidarToRobot := lidar;
     serviceCallLock := false;
     trace :=
       (if chdir =? 0
        then [Logged Warn "Failed to switch to the demanded directory." None]
        else [])
       ++ snd (loadCommands speeds)
       ++ snd (loadPositions positionsFile)
       ++ snd (loadAnchorPoints anchors)
       ++ [Logged Info "Done loading the teach in memory." None] |}.

(** ** Playback clock (Repeat.cpp lines 208-225) *)

Definition pausePlayback (now : Time) : M unit :=
  emit (CommandPublished idleTwistCommand) ;;
  modify (fun s => set_baseSimTime
                     (baseSimTime s + (now - timePlaybackStarted s)) s) ;;
  base <- gets baseSimTime ;;
  emit (Logged Info "Paused at: %lf" (Some base)).

Definition startPlayback (now : Time) : M unit :=
  modify (set_timePlaybackStarted now).

Definition simTime (now : Time) : M Time :=
  st <- gets currentStatus ;;
  if Status_eqb st PLAY then
    base <- gets baseSimTime ;;
    started <- gets timePlaybackStarted ;;
    ret (base + (now - started))
  else gets baseSimTime.

(** ** Status machine (lines 227-262) *)

Definition switchToStatus (now : Time) (desiredStatus : Status) : M unit :=
  st <- gets currentStatus ;;
  when (Status_eqb desiredStatus ERROR && negb (Status_eqb st ERROR))
       (emit (Logged Warn "Switching to emergency mode." None) ;;
        pausePlayback now ;;
        modify (set_currentStatus ERROR)) ;;
  st' <- gets currentStatus ;;
  match st' with
  | PLAY =>
      when (Status_eqb desiredStatus PAUSE)
           (emit (Logged Info "Stopping playback." None) ;;
            pausePlayback now ;;
            modify (set_currentStatus PAUSE))
  | PAUSE =>
      when (Status_eqb desiredStatus PLAY)
           (emit (Logged Info "Starting playback." None) ;;
            startPlayback now ;;
            modify (set_currentStatus PLAY))
  | ERROR =>
      when (Status_eqb desiredStatus PAUSE)
           (emit (Logged Info "Attempting recovery." None) ;;
            modify (set_currentStatus PAUSE))
  end.

(** ** Joystick callback (lines 167-181)

    [buttons] is the [std::vector<int32_t>] of the [sensor_msgs::Joy]
    message; indexing it outside its size is undefined. *)

Definition button (buttons : list Z) (i : nat) : M Z :=
  lift (nth_error buttons i).

Definition joystickCallback (now : Time) (buttons : list Z) : M unit :=
  st <- gets currentStatus ;;
  match st with
  | PLAY =>
      b <- button buttons RB ;;
      when (b =? 0) (switchToStatus now PAUSE)
  | PAUSE =>
      b <- button buttons RB ;;
      when (b =? 1) (switchToStatus now PLAY)
  | ERROR =>
      b <- button buttons X ;;
      when (b =? 1) (switchToStatus now PAUSE)
  end.

(** ** Cursors over the taught sequences (lines 183-206)

    [commandCursor->...] and [positionCursor->...]. *)

Definition derefCommand : M TwistStamped :=
  fun s => lift (deref (commands s) (commandCursor s)) s.

Definition derefPosition : M PoseStamped :=
  fun s => lift (deref (positions s) (positionCursor s)) s.

(** The [while] loop of [commandOfTime], unrolled at most [fuel] times. *)
Fixpoint commandOfTime_loop (fuel : nat) (time : Time) : M unit :=
  cur <- derefCommand ;;
  ahead <- gets lookahead ;;
  if twist_stamp cur <? time + ahead then
    c <- gets commandCursor ;;
    last <- (fun s => lift (end_minus_one (commands s)) s) ;;
    if (c <? last)%nat then
      match fuel with
      | O => unfinished
      | S fuel' =>
          modify (set_commandCursor (S c)) ;;
          commandOfTime_loop fuel' time
      end
    else ret tt
  else ret tt.

Definition commandOfTime (time : Time) : M Twist :=
  n <- gets (fun s => List.length (commands s)) ;;
  commandOfTime_loop n time ;;
  cur <- derefCommand ;;
  ret (twist cur).

(** The [while] loop of [poseOfTime], unrolled at most [fuel] times. *)
Fixpoint poseOfTime_loop (fuel : nat) (time : Time) : M unit :=
  cur <- derefPosition ;;
  if pose_stamp cur <? time then
    c <- gets positionCursor ;;
    last <- (fun s => lift (end_minus_one (positions s)) s) ;;
    if (c <? last)%nat then
      match fuel with
      | O => unfinished
      | S fuel' =>
          modify (set_positionCursor (S c)) ;;
          poseOfTime_loop fuel' time
      end
    else ret tt
  else ret tt.

Definition poseOfTime (time : Time) : M Pose :=
  n <- gets (fun s => List.length (positions s)) ;;
  poseOfTime_loop n time ;;
  cur <- derefPosition ;;
  ret (pose cur).

(** ** One cycle of the main loop (lines 82-113)

    The three clock readings of a cycle, in program order: [simTime()] at the
    top, the stamp of the switch message, [simTime()] for the reference
    pose. *)

Record Clock : Type := {
  now_spin : Time;
  now_switch : Time;
  now_pose : Time
}.

Definition derefAnchorPoint (it : nat) : M AnchorPoint :=
  fun s => lift (deref (anchorPoints s) it) s.

Definition spin_body (clk : Clock) : M unit :=
  timeOfSpin <- simTime (now_spin clk) ;;
  here <- poseOfTime timeOfSpin ;;
  it <- gets anchorPointCursor ;;
  ap <- derefAnchorPoint it ;;
  let distanceToCurrentAnchorPoint := customDistance here (getPosition ap) in
  n <- gets (fun s => List.length (anchorPoints s)) ;;
  distanceToNextAnchorPoint <-
    (if negb (S it =? n)%nat then
       here' <- poseOfTime timeOfSpin ;;
       nxt <- derefAnchorPoint (S it) ;;
       ret (customDistance here' (getPosition nxt))
     else ret infinity) ;;
  when ((S it <? n)%nat &&
        (distanceToNextAnchorPoint <=? distanceToCurrentAnchorPoint)%float)
       (modify (set_anchorPointCursor (S it)) ;;
        ap' <- derefAnchorPoint (S it) ;;
        emit (AnchorPointSwitched (now_switch clk) (name ap'))) ;;
  st <- gets currentStatus ;;
  when (Status_eqb st PLAY)
       (cmd <- commandOfTime timeOfSpin ;;
        ctl <- gets controller ;;
        emit (CorrectCommandCalled cmd) ;;
        modify (set_controller (snd (correctCommand ctl cmd))) ;;
        emit (CommandPublished (fst (correctCommand ctl cmd)))) ;;
  t <- simTime (now_pose clk) ;;
  p <- poseOfTime t ;;
  emit (ReferencePosePublished p).

(** ** Correction of one scan (lines 127-160)

    [now] is the clock reading of [simTime()], [now_fail] the later one of
    [pausePlayback()] when the service fails.  [icpService] is the reply of
    the matching service to a request: [Some] transform when the call
    succeeds, [None] when it fails.  The mutex is held by another scan's
    thread exactly when [serviceCallLock] is [true] on entry. *)

Definition updateError (now now_fail : Time)
    (icpService : Cloud -> Cloud -> option Transform)
    (reading : Cloud) : M unit :=
  t <- simTime now ;;
  here <- poseOfTime t ;;
  it <- gets anchorPointCursor ;;
  ap <- derefAnchorPoint it ;;
  let tFromReadingToAnchor := transFromPoseToPose here (getPosition ap) in
  lidar <- gets tFromLidarToRobot ;;
  let transformedReadingCloudMsg :=
    transformPointCloud (composeTransform tFromReadingToAnchor lidar) reading in
  let reference := getCloud ap in
  held <- gets serviceCallLock ;;
  if negb held then
    modify (set_serviceCallLock true) ;;
    emit (ServiceCalled transformedReadingCloudMsg reference) ;;
    match icpService transformedReadingCloudMsg reference with
    | Some transform =>
        let rawError := controlErrorOfTransformation transform in
        ctl <- gets controller ;;
        emit (UpdateErrorCalled rawError) ;;
        modify (set_controller (controller_updateError ctl rawError)) ;;
        emit (ErrorReported rawError)
    | None =>
        emit (Logged Warn
                "There was a problem with the point matching service." None) ;;
        switchToStatus now_fail ERROR
    end ;;
    modify (set_serviceCallLock false)
  else
    emit (Logged Info "ICP service was busy, dropped a cloud." None).

(** [cloudCallback] (lines 162-165) starts a thread that runs
    [updateError] on the message, lets go of it and returns at once: the callback
    itself reads and writes no member.  The correction runs later, beside
    the main loop; it is no part of the callback. *)
Definition cloudCallback (msg : Cloud) : M unit :=
  emit (ThreadStarted msg).

(** ** Reconfiguration (lines 321-325) *)

Definition paramCallback (params : RepeatConfig) : M unit :=
  modify (set_lookahead (config_lookahead params)) ;;
  ctl <- gets controller ;;
  modify (set_controller (controller_updateParams ctl params)).

(** ** The main loop (lines 78-118)

    What [ros::spinOnce()] delivers in a cycle, on the main thread.  For a
    scan that is the start of its correction thread only. *)

Inductive Callback : Type :=
| JoyMessage (now : Time) (buttons : list Z)
| CloudMessage (msg : Cloud)
| Reconfigure (params : RepeatConfig).

Definition dispatch (cb : Callback) : M unit :=
  match cb with
  | JoyMessage now buttons => joystickCallback now buttons
  | CloudMessage msg => cloudCallback msg
  | Reconfigure params => paramCallback params
  end.

Fixpoint spinOnce (pending : list Callback) : M unit :=
  match pending with
  | [] => ret tt
  | cb :: rest => dispatch cb ;; spinOnce rest
  end.

(** The surroundings of one evaluation of the loop condition and, when it
    holds, of the cycle that follows. *)
Record Cycle : Type := {
  ros_ok : bool;
  clock : Clock;
  pending : list Callback
}.

(** [ros::ok() && commandCursor < commands.end() - 1] *)
Definition spin_condition (ok : bool) : M bool :=
  if ok then
    c <- gets commandCursor ;;
    last <- (fun s => lift (end_minus_one (commands s)) s) ;;
    ret (c <? last)%nat
  else ret false.

(** [spin], returning the number of cycles whose body ran. *)
Fixpoint spin (cycles : list Cycle) : M nat :=
  match cycles with
  | [] => unfinished
  | cy :: rest =>
      go <- spin_condition (ros_ok cy) ;;
      if go then
        spin_body (clock cy) ;;
        spinOnce (pending cy) ;;
        n <- spin rest ;;
        ret (S n)
      else ret O
  end.

End Playback.

(** ** The cursor walk, on the time stamps alone

    Both lookups walk a cursor over a vector of stamped entries with the
    same loop; [advance] is that loop on the list of stamps. *)

Inductive Walk : Type :=
| Stop (c : nat)
| OffEnd
| OutOfFuel.

Fixpoint advance (stamps : list Time) (bound : Time) (fuel c : nat) : Walk :=
  match nth_error stamps c with
  | None => OffEnd
  | Some ts =>
      if ts <? bound then
        if (c <? List.length stamps - 1)%nat then
          match fuel with
          | O => OutOfFuel
          | S fuel' => advance stamps bound fuel' (S c)
          end
        else Stop c
      else Stop c
  end.

Section SpecReading.

Context {ext : Externals}.
Local Open Scope node_scope.

(** ** The lookup as the specification words it

    "advances the command cursor forward while the next entry's timestamp is
    less than time + lookahead and cursor is not at the last element; returns
    the twist at the resulting cursor." *)

Fixpoint commandAt_spec_loop (fuel : nat) (time : Time) : M unit :=
  c <- gets commandCursor ;;
  last <- (fun s => lift (end_minus_one (commands s)) s) ;;
  if (c <? last)%nat then
    nxt <- (fun s => lift (deref (commands s) (S c)) s) ;;
    ahead <- gets lookahead ;;
    if twist_stamp nxt <? time + ahead then
      match fuel with
      | O => unfinished
      | S fuel' =>
          modify (set_commandCursor (S c)) ;;
          commandAt_spec_loop fuel' time
      end
    else ret tt
  else ret tt.

Definition commandAt_spec (time : Time) : M Twist :=
  n <- gets (fun s => List.length (commands s)) ;;
  commandAt_spec_loop n time ;;
  cur <- derefCommand ;;
  ret (twist cur).

(** Consecutive joystick messages, and the status after each of them. *)
Fixpoint statusesAlong (msgs : list (Time * list Z)) (s : Repeat)
  : list Status :=
  match msgs with
  | [] => []
  | (now, buttons) :: rest =>
      match joystickCallback now buttons s with
      | Returns _ s' => currentStatus s' :: statusesAlong rest s'
      | _ => []
      end
  end.

(** Alternating resume and pause requests: each pair holds the clock
    readings at the PAUSE to PLAY and the following PLAY to PAUSE switch. *)
Fixpoint playPauseCycles (segments : list (Time * Time)) : M unit :=
  match segments with
  | [] => ret tt
  | (started, paused) :: rest =>
      switchToStatus started PLAY ;;
      switchToStatus paused PAUSE ;;
      playPauseCycles rest
  end.

Definition segmentsTotal (segments : list (Time * Time)) : Duration :=
  fold_right (fun seg acc => (snd seg - fst seg) + acc) 0 segments.

(** The twists sent on the command topic, and the twists handed to the
    corrector, in a trace. *)
Fixpoint publishedCommands (tr : list Event) : list Twist :=
  match tr with
  | [] => []
  | CommandPublished t :: rest => t :: publishedCommands rest
  | _ :: rest => publishedCommands rest
  end.

Fixpoint correctorCalls (tr : list Event) : list Twist :=
  match tr with
  | [] => []
  | CorrectCommandCalled t :: rest => t :: correctorCalls rest
  | _ :: rest => correctorCalls rest
  end.

Fixpoint publishedPoses (tr : list Event) : list Pose :=
  match tr with
  | [] => []
  | ReferencePosePublished p :: rest => p :: publishedPoses rest
  | _ :: rest => publishedPoses rest
  end.

(** "a next anchor exists AND distance-to-next <= distance-to-current",
    for the pose [here] and the anchor cursor [it]. *)
Definition nextAnchorIsCloser (here : Pose) (aps : list AnchorPoint)
           (it : nat) : bool :=
  match nth_error aps it, nth_error aps (S it) with
  | Some cur, Some nxt =>
      (customDistance here (getPosition nxt)
         <=? customDistance here (getPosition cur))%float
  | _, _ => false
  end.

(** What is published when the anchor cursor moves onto offset [it]. *)
Definition switchNotice (stamp : Time) (aps : list AnchorPoint) (it : nat)
  : list Event :=
  match nth_error aps it with
  | Some ap => [AnchorPointSwitched stamp (name ap)]
  | None => []
  end.

(** The switch notifications in a trace. *)
Fixpoint anchorSwitches (tr : list Event) : list (Time * string) :=
  match tr with
  | [] => []
  | AnchorPointSwitched stamp newAnchorPoint :: rest =>
      (stamp, newAnchorPoint) :: anchorSwitches rest
  | _ :: rest => anchorSwitches rest
  end.

(** The cursors of a node in a running cycle all point at elements. *)
Definition cursorsOnElements (s : Repeat) : Prop :=
  (commandCursor s < List.length (commands s))%nat /\
  (positionCursor s < List.length (positions s))%nat /\
  (anchorPointCursor s < List.length (anchorPoints s))%nat.

(** [s'] holds the sequences of [s], has no cursor behind the one of [s],
    and has every cursor on an element. *)
Definition advancedFrom (s s' : Repeat) : Prop :=
  commands s' = commands s /\
  positions s' = positions s /\
  anchorPoints s' = anchorPoints s /\
  (commandCursor s <= commandCursor s')%nat /\
  (positionCursor s <= positionCursor s')%nat /\
  (anchorPointCursor s <= anchorPointCursor s')%nat /\
  cursorsOnElements s'.

(** A joystick message carries the two buttons the callback may read. *)
Definition buttonsInRange (buttons : list Z) : Prop :=
  (RB < List.length buttons)%nat /\ (X < List.length buttons)%nat.

(** A callback that runs on the main thread from start to end and starts
    no thread: a joystick message with its buttons in range, or a
    reconfiguration. *)
Definition runsOnMainThread (cb : Callback) : Prop :=
  match cb with
  | JoyMessage _ buttons => buttonsInRange buttons
  | CloudMessage _ => False
  | Reconfigure _ => True
  end.

(** Time stamps in the order of the sequence. *)
Definition stampsAscend (stamps : list Time) : Prop :=
  forall i j a b,
    (i <= j)%nat ->
    nth_error stamps i = Some a -> nth_error stamps j = Some b -> a <= b.

(** Consecutive scans for each of which the matching service fails; a scan
    comes with the two clock readings of its correction. *)
Fixpoint failedScans (scans : list (Time * Time * Cloud)) : M unit :=
  match scans with
  | [] => ret tt
  | (now, now_fail, reading) :: rest =>
      updateError now now_fail (fun _ _ => None) reading ;;
      failedScans rest
  end.

End SpecReading.

(** ** A small concrete node

    Messages are integers, the corrector adds its last error to a command,
    the distance of two poses is the absolute difference. *)

Module Demo.

Definition distance (p q : Z) : float :=
  PrimFloat.of_uint63 (Uint63.of_Z (Z.abs (p - q))).

#[export] Instance ext : Externals := {|
  Twist := Z;
  Pose := Z;
  Cloud := Z;
  Transform := Z;
  TrajectoryError := Z;
  CommandRepeater := Z;
  RepeatConfig := Z;
  idleTwistCommand := 0;
  correctCommand := fun ctl t => (t + ctl, ctl);
  controller_updateError := fun _ e => e;
  controller_updateParams := fun ctl _ => ctl;
  config_lookahead := fun cfg => cfg;
  customDistance := distance;
  transFromPoseToPose := fun p q => q - p;
  composeTransform := fun a b => a + b;
  transformPointCloud := fun t c => c + t;
  controlErrorOfTransformation := fun t => t;
  stampedTwistOfString :=
    fun line => (1000000000 * Z.of_nat (String.length line), 10);
  stampedPoseOfString :=
    fun line => (1000000000 * Z.of_nat (String.length line),
                 4 * Z.of_nat (String.length line));
  anchorPointOfString :=
    fun line => (line, 8 * Z.of_nat (String.length line), 100);
  RB := 5%nat;
  X := 2%nat
|}.

(** Three commands stamped 0 s, 1 s and 2 s, three poses, two anchor
    points; the look-ahead is 0.5 s. *)
Definition node (st : Status) : Repeat := {|
  commands := [ {| twist_stamp := 0; twist := 10 |};
                {| twist_stamp := 1000000000; twist := 11 |};
                {| twist_stamp := 2000000000; twist := 12 |} ];
  positions := [ {| pose_stamp := 0; pose := 0 |};
                 {| pose_stamp := 1000000000; pose := 4 |};
                 {| pose_stamp := 2000000000; pose := 8 |} ];
  anchorPoints := [ {| name := "ap0"; getPosition := 0; getCloud := 100 |};
                    {| name := "ap1"; getPosition := 8; getCloud := 101 |} ];
  commandCursor := 0;
  positionCursor := 0;
  anchorPointCursor := 0;
  currentStatus := st;
  baseSimTime := 0;
  timePlaybackStarted := 0;
  lookahead := 500000000;
  controller := 0;
  tFromLidarToRobot := 1;
  serviceCallLock := false;
  trace := []
|}.

(** The node as constructed in a working directory that has no command
    file: [speeds.sl] cannot be opened, the two other files can. *)
Definition unloaded : Repeat :=
  Repeat_new (-1) None
             (Some ["a"%string; "ab"%string; "abc"%string])
             (Some ["a"%string; "ab"%string])
             0 500000000 1.

Definition buttonsWith (rb x : Z) : list Z := [0; 0; x; 0; 0; rb; 0; 0].

Definition steady (t : Time) : Clock :=
  {| now_spin := t; now_switch := t; now_pose := t |}.

(** A cycle under [ros::ok()] in which a joystick message with RB held
    and a reconfiguration are delivered. *)
Definition busyCycle (t : Time) : Cycle :=
  {| ros_ok := true; clock := steady t;
     pending := [JoyMessage t (buttonsWith 1 0); Reconfigure 500000000] |}.

(** A cycle under [ros::ok()] with no callback pending. *)
Definition oneCycle (t : Time) : Cycle :=
  {| ros_ok := true; clock := steady t; pending := [] |}.

End Demo.

Import Demo.

(** * Properties *)

(** ** The cursor walk *)

Lemma Status_eqb_eq (a b : Status) : Status_eqb a b = true <-> a = b.
Proof. destruct a, b; simpl; split; intro H; congruence. Qed.

Lemma advance_stop (stamps : list Time) (bound : Time) :
  forall fuel c,
    (c < List.length stamps)%nat ->
    (List.length stamps - 1 - c <= fuel)%nat ->
    exists c',
      advance stamps bound fuel c = Stop c' /\
      (c <= c' < List.length stamps)%nat /\
      (forall i ts, (c <= i < c')%nat ->
                    nth_error stamps i = Some ts -> ts < bound) /\
      (c' = (List.length stamps - 1)%nat \/
       exists ts, nth_error stamps c' = Some ts /\ bound <= ts).
Proof.
  induction fuel as [|fuel IH]; intros c Hc Hfuel.
  - assert (c = (List.length stamps - 1)%nat) as Hlast by lia.
    destruct (nth_error stamps c) as [ts|] eqn:Hnth.
    2:{ apply nth_error_None in Hnth. lia. }
    exists c. simpl. rewrite Hnth.
    replace (c <? List.length stamps - 1)%nat with false
      by (symmetry; apply Nat.ltb_ge; lia).
    split; [destruct (ts <? bound); reflexivity|]. split; [lia|].
    split; [intros; lia|]. left; assumption.
  - destruct (nth_error stamps c) as [ts|] eqn:Hnth.
    2:{ apply nth_error_None in Hnth. lia. }
    simpl. rewrite Hnth.
    destruct (ts <? bound) eqn:Hlt.
    + destruct (c <? List.length stamps - 1)%nat eqn:Hin.
      * apply Nat.ltb_lt in Hin.
        destruct (IH (S c)) as (c' & Hrun & Hrange & Hbelow & Hstop);
          [lia | lia |].
        exists c'. repeat split; auto; try lia.
        intros i ti Hi Hnthi.
        destruct (Nat.eq_dec i c) as [->|Hne].
        -- rewrite Hnth in Hnthi. inversion Hnthi; subst.
           apply Z.ltb_lt; assumption.
        -- apply (Hbelow i); auto. lia.
      * apply Nat.ltb_ge in Hin.
        exists c. split; [reflexivity|]. split; [lia|].
        split; [intros; lia|]. left; lia.
    + apply Z.ltb_ge in Hlt.
      exists c. split; [reflexivity|]. split; [lia|].
      split; [intros; lia|].
      right. exists ts. auto.
Qed.

(** The stopping place is determined by the stamps: two walks from the same
    cursor, the second with a bound at least as large, stop in order. *)
Lemma walk_ordered (stamps : list Time) (b1 b2 : Time) (c c1 c2 : nat) :
  b1 <= b2 ->
  (c <= c1 < List.length stamps)%nat ->
  (c <= c2 < List.length stamps)%nat ->
  (forall i ts, (c <= i < c1)%nat ->
                nth_error stamps i = Some ts -> ts < b1) ->
  (c2 = (List.length stamps - 1)%nat \/
   exists ts, nth_error stamps c2 = Some ts /\ b2 <= ts) ->
  (c1 <= c2)%nat.
Proof.
  intros Hb H1 H2 Hbelow [Hlast | (ts & Hnth & Hge)]; [lia|].
  destruct (Nat.le_gt_cases c1 c2) as [|Hgt]; [assumption|].
  specialize (Hbelow c2 ts ltac:(lia) Hnth). lia.
Qed.

Lemma advance_monotone (stamps : list Time) (b1 b2 : Time)
      (fuel1 fuel2 c c1 c2 : nat) :
  b1 <= b2 ->
  (c < List.length stamps)%nat ->
  (List.length stamps - 1 - c <= fuel1)%nat ->
  (List.length stamps - 1 - c <= fuel2)%nat ->
  advance stamps b1 fuel1 c = Stop c1 ->
  advance stamps b2 fuel2 c = Stop c2 ->
  (c1 <= c2)%nat.
Proof.
  intros Hb Hc Hf1 Hf2 H1 H2.
  destruct (advance_stop stamps b1 fuel1 c Hc Hf1) as (d1 & E1 & R1 & B1 & _).
  destruct (advance_stop stamps b2 fuel2 c Hc Hf2) as (d2 & E2 & R2 & _ & S2).
  rewrite H1 in E1. rewrite H2 in E2. inversion E1; inversion E2; subst.
  eapply walk_ordered; eauto.
Qed.

(** A walk that has stopped stays where it is when asked again. *)
Lemma advance_again (stamps : list Time) (bound : Time) (fuel c' : nat) :
  (c' < List.length stamps)%nat ->
  (c' = (List.length stamps - 1)%nat \/
   exists ts, nth_error stamps c' = Some ts /\ bound <= ts) ->
  advance stamps bound fuel c' = Stop c'.
Proof.
  intros Hc Hstop.
  destruct Hstop as [Hlast | (ts' & Hnth' & Hge)].
  - destruct (nth_error stamps c') as [ts|] eqn:Hnth.
    2:{ apply nth_error_None in Hnth. lia. }
    destruct fuel; simpl; rewrite Hnth;
      (replace (c' <? List.length stamps - 1)%nat with false
         by (symmetry; apply Nat.ltb_ge; lia));
      destruct (ts <? bound); reflexivity.
  - destruct fuel; simpl; rewrite Hnth';
      (replace (ts' <? bound) with false
         by (symmetry; apply Z.ltb_ge; assumption));
      reflexivity.
Qed.

Section Cursors.

Context {ext : Externals}.

Lemma set_commandCursor_same (s : Repeat) :
  set_commandCursor (commandCursor s) s = s.
Proof. destruct s; reflexivity. Qed.

Lemma set_positionCursor_same (s : Repeat) :
  set_positionCursor (positionCursor s) s = s.
Proof. destruct s; reflexivity. Qed.

Lemma end_minus_one_nonempty {A : Type} (v : list A) (c : nat) :
  (c < List.length v)%nat ->
  end_minus_one v = Some (List.length v - 1)%nat.
Proof. destruct v; simpl; intros H; [lia | reflexivity]. Qed.

(** The loop of [commandOfTime] is the walk over the command stamps with
    bound [time + lookahead]. *)
Lemma commandOfTime_loop_walk (time : Time) :
  forall fuel s,
    commandOfTime_loop fuel time s =
    match advance (map twist_stamp (commands s)) (time + lookahead s)
                  fuel (commandCursor s) with
    | Stop c => Returns tt (set_commandCursor c s)
    | OffEnd => Undefined
    | OutOfFuel => Unfinished
    end.
Proof.
  induction fuel as [|fuel IH]; intros s; simpl;
    unfold bind, derefCommand, lift, deref, gets;
    rewrite nth_error_map;
    destruct (nth_error (commands s) (commandCursor s)) as [cur|] eqn:Hnth;
    simpl; try reflexivity;
    (assert (commandCursor s < List.length (commands s))%nat as Hin
        by (apply nth_error_Some; congruence));
    rewrite length_map;
    destruct (twist_stamp cur <? time + lookahead s);
    try (rewrite set_commandCursor_same; reflexivity);
    rewrite (end_minus_one_nonempty _ _ Hin);
    destruct (commandCursor s <? List.length (commands s) - 1)%nat;
    try (unfold ret; rewrite set_commandCursor_same; reflexivity).
  - reflexivity.
  - unfold modify. rewrite IH. simpl.
    destruct (advance (map twist_stamp (commands s)) (time + lookahead s)
                      fuel (S (commandCursor s))); reflexivity.
Qed.

Lemma poseOfTime_loop_walk (time : Time) :
  forall fuel s,
    poseOfTime_loop fuel time s =
    match advance (map pose_stamp (positions s)) time
                  fuel (positionCursor s) with
    | Stop c => Returns tt (set_positionCursor c s)
    | OffEnd => Undefined
    | OutOfFuel => Unfinished
    end.
Proof.
  induction fuel as [|fuel IH]; intros s; simpl;
    unfold bind, derefPosition, lift, deref, gets;
    rewrite nth_error_map;
    destruct (nth_error (positions s) (positionCursor s)) as [cur|] eqn:Hnth;
    simpl; try reflexivity;
    (assert (positionCursor s < List.length (positions s))%nat as Hin
        by (apply nth_error_Some; congruence));
    rewrite length_map;
    destruct (pose_stamp cur <? time);
    try (rewrite set_positionCursor_same; reflexivity);
    rewrite (end_minus_one_nonempty _ _ Hin);
    destruct (positionCursor s <? List.length (positions s) - 1)%nat;
    try (unfold ret; rewrite set_positionCursor_same; reflexivity).
  - reflexivity.
  - unfold modify. rewrite IH. simpl.
    destruct (advance (map pose_stamp (positions s)) time
                      fuel (S (positionCursor s))); reflexivity.
Qed.

(** What a lookup returns when its cursor points at an element. *)
Lemma commandOfTime_returns (time : Time) (s : Repeat) :
  (commandCursor s < List.length (commands s))%nat ->
  exists c' e,
    commandOfTime time s = Returns (twist e) (set_commandCursor c' s) /\
    nth_error (commands s) c' = Some e /\
    (commandCursor s <= c' < List.length (commands s))%nat /\
    (forall i ei, (commandCursor s <= i < c')%nat ->
                  nth_error (commands s) i = Some ei ->
                  twist_stamp ei < time + lookahead s) /\
    (c' = (List.length (commands s) - 1)%nat \/
     time + lookahead s <= twist_stamp e).
Proof.
  intros Hin.
  destruct (advance_stop (map twist_stamp (commands s)) (time + lookahead s)
              (List.length (commands s)) (commandCursor s))
    as (c' & Hrun & Hrange & Hbelow & Hstop);
    try (rewrite length_map; lia).
  rewrite length_map in *.
  destruct (nth_error (commands s) c') as [e|] eqn:He.
  2:{ apply nth_error_None in He. lia. }
  exists c', e.
  split.
  { unfold commandOfTime, bind, gets.
    rewrite commandOfTime_loop_walk, Hrun.
    unfold derefCommand, lift, deref. simpl. rewrite He. reflexivity. }
  split; [assumption|]. split; [assumption|]. split.
  - intros i ei Hi Hnth. apply (Hbelow i); auto.
    rewrite nth_error_map, Hnth. reflexivity.
  - destruct Hstop as [Hlast | (ts & Hnth & Hge)]; [left; assumption|].
    right. rewrite nth_error_map, He in Hnth. simpl in Hnth.
    inversion Hnth; subst. assumption.
Qed.

Lemma poseOfTime_returns (time : Time) (s : Repeat) :
  (positionCursor s < List.length (positions s))%nat ->
  exists c' e,
    poseOfTime time s = Returns (pose e) (set_positionCursor c' s) /\
    nth_error (positions s) c' = Some e /\
    (positionCursor s <= c' < List.length (positions s))%nat /\
    (forall i ei, (positionCursor s <= i < c')%nat ->
                  nth_error (positions s) i = Some ei ->
                  pose_stamp ei < time) /\
    (c' = (List.length (positions s) - 1)%nat \/ time <= pose_stamp e).
Proof.
  intros Hin.
  destruct (advance_stop (map pose_stamp (positions s)) time
              (List.length (positions s)) (positionCursor s))
    as (c' & Hrun & Hrange & Hbelow & Hstop);
    try (rewrite length_map; lia).
  rewrite length_map in *.
  destruct (nth_error (positions s) c') as [e|] eqn:He.
  2:{ apply nth_error_None in He. lia. }
  exists c', e.
  split.
  { unfold poseOfTime, bind, gets.
    rewrite poseOfTime_loop_walk, Hrun.
    unfold derefPosition, lift, deref. simpl. rewrite He. reflexivity. }
  split; [assumption|]. split; [assumption|]. split.
  - intros i ei Hi Hnth. apply (Hbelow i); auto.
    rewrite nth_error_map, Hnth. reflexivity.
  - destruct Hstop as [Hlast | (ts & Hnth & Hge)]; [left; assumption|].
    right. rewrite nth_error_map, He in Hnth. simpl in Hnth.
    inversion Hnth; subst. assumption.
Qed.

(** Asking again for the same time neither moves the pose cursor nor
    changes the answer. *)
Lemma poseOfTime_again (time : Time) (s : Repeat) (c' : nat) (e : PoseStamped) :
  nth_error (positions s) c' = Some e ->
  (c' = (List.length (positions s) - 1)%nat \/ time <= pose_stamp e) ->
  poseOfTime time (set_positionCursor c' s) =
  Returns (pose e) (set_positionCursor c' s).
Proof.
  intros He Hstop.
  assert (c' < List.length (positions s))%nat as Hin
    by (apply nth_error_Some; congruence).
  unfold poseOfTime, bind, gets.
  rewrite poseOfTime_loop_walk. simpl.
  rewrite advance_again.
  - unfold derefPosition, lift, deref. simpl. rewrite He. reflexivity.
  - rewrite length_map. assumption.
  - rewrite length_map. destruct Hstop as [Hlast|Hge]; [left; assumption|].
    right. exists (pose_stamp e). rewrite nth_error_map, He. auto.
Qed.

(** A lookup reads the sequence, its cursor (and the look-ahead) only. *)
Lemma poseOfTime_frame (time : Time) (s s2 : Repeat) (a : Pose) (p : nat) :
  positions s2 = positions s ->
  positionCursor s2 = positionCursor s ->
  poseOfTime time s = Returns a (set_positionCursor p s) ->
  poseOfTime time s2 = Returns a (set_positionCursor p s2).
Proof.
  intros Hps Hpc.
  unfold poseOfTime, bind, gets.
  rewrite !poseOfTime_loop_walk, Hps, Hpc.
  destruct (advance (map pose_stamp (positions s)) time
                    (List.length (positions s)) (positionCursor s))
    as [c| |]; try discriminate.
  unfold derefPosition, lift, deref. simpl. rewrite Hps.
  destruct (nth_error (positions s) c) as [e|]; try discriminate.
  unfold ret. intros H. inversion H; subst. reflexivity.
Qed.

Lemma commandOfTime_frame (time : Time) (s s2 : Repeat) (a : Twist) (c : nat) :
  commands s2 = commands s ->
  commandCursor s2 = commandCursor s ->
  lookahead s2 = lookahead s ->
  commandOfTime time s = Returns a (set_commandCursor c s) ->
  commandOfTime time s2 = Returns a (set_commandCursor c s2).
Proof.
  intros Hcs Hcc Hla.
  unfold commandOfTime, bind, gets.
  rewrite !commandOfTime_loop_walk, Hcs, Hcc, Hla.
  destruct (advance (map twist_stamp (commands s)) (time + lookahead s)
                    (List.length (commands s)) (commandCursor s))
    as [c0| |]; try discriminate.
  unfold derefCommand, lift, deref. simpl. rewrite Hcs.
  destruct (nth_error (commands s) c0) as [e|]; try discriminate.
  unfold ret. intros H. inversion H; subst. reflexivity.
Qed.

End Cursors.

(** ** Lookups by time *)

Section Lookups.

Context {ext : Externals}.

(** C1, as the code has it.  For every query time and every node whose
    command cursor is on an element, [commandOfTime] returns; it moves the
    command cursor forward while the entry AT the cursor (not the one after
    it) is stamped before [time + lookahead] and the cursor is not on the
    last element, touches nothing else, and returns the twist at the cursor
    it ends on.  The comparison is strict: an entry at the cursor stamped
    exactly [time + lookahead] keeps the cursor where it is. *)
Theorem commandOfTime_walks_on_current_stamp (time : Time) (s : Repeat) :
  (commandCursor s < List.length (commands s))%nat ->
  exists c' e,
    commandOfTime time s = Returns (twist e) (set_commandCursor c' s) /\
    nth_error (commands s) c' = Some e /\
    (commandCursor s <= c' < List.length (commands s))%nat /\
    (forall i ei, (commandCursor s <= i < c')%nat ->
                  nth_error (commands s) i = Some ei ->
                  twist_stamp ei < time + lookahead s) /\
    (c' = (List.length (commands s) - 1)%nat \/
     time + lookahead s <= twist_stamp e) /\
    (forall e0, nth_error (commands s) (commandCursor s) = Some e0 ->
                twist_stamp e0 = time + lookahead s ->
                c' = commandCursor s).
Proof.
  intros Hin.
  destruct (commandOfTime_returns time s Hin)
    as (c' & e & Hrun & He & Hrange & Hbelow & Hstop).
  exists c', e.
  repeat (split; [assumption|]).
  intros e0 He0 Hexact.
  destruct (Nat.eq_dec c' (commandCursor s)) as [Heq|Hne]; [exact Heq|].
  specialize (Hbelow (commandCursor s) e0 ltac:(lia) He0). lia.
Qed.

(** C7.  When the cursors are on elements, both lookups return, and: a
    lookup never moves its cursor backward nor past the last element; from
    the same node a later query time leaves the cursor at least as far;
    a second lookup after a first leaves the cursor at least where the
    first left it; and a query time beyond every stamp leaves the cursor
    on the last element. *)
Theorem cursors_monotone_and_bounded (s : Repeat) (t1 t2 : Time) :
  t1 <= t2 ->
  (commandCursor s < List.length (commands s))%nat ->
  (positionCursor s < List.length (positions s))%nat ->
  exists c1 c2 c12 p1 p2 p12,
    (option_map commandCursor (exec (commandOfTime t1) s) = Some c1 /\
     option_map commandCursor (exec (commandOfTime t2) s) = Some c2 /\
     option_map commandCursor
       (exec (commandOfTime t2) (set_commandCursor c1 s)) = Some c12 /\
     exec (commandOfTime t1) s = Some (set_commandCursor c1 s) /\
     (commandCursor s <= c1)%nat /\ (c1 <= c2)%nat /\ (c1 <= c12)%nat /\
     (c2 <= List.length (commands s) - 1)%nat /\
     (c12 <= List.length (commands s) - 1)%nat /\
     ((forall e, In e (commands s) -> twist_stamp e < t2 + lookahead s) ->
      c2 = (List.length (commands s) - 1)%nat)) /\
    (option_map positionCursor (exec (poseOfTime t1) s) = Some p1 /\
     option_map positionCursor (exec (poseOfTime t2) s) = Some p2 /\
     option_map positionCursor
       (exec (poseOfTime t2) (set_positionCursor p1 s)) = Some p12 /\
     exec (poseOfTime t1) s = Some (set_positionCursor p1 s) /\
     (positionCursor s <= p1)%nat /\ (p1 <= p2)%nat /\ (p1 <= p12)%nat /\
     (p2 <= List.length (positions s) - 1)%nat /\
     (p12 <= List.length (positions s) - 1)%nat /\
     ((forall e, In e (positions s) -> pose_stamp e < t2) ->
      p2 = (List.length (positions s) - 1)%nat)).
Proof.
  intros Ht Hc Hp.
  destruct (commandOfTime_returns t1 s Hc)
    as (c1 & e1 & R1 & N1 & G1 & B1 & S1).
  destruct (commandOfTime_returns t2 s Hc)
    as (c2 & e2 & R2 & N2 & G2 & B2 & S2).
  destruct (commandOfTime_returns t2 (set_commandCursor c1 s))
    as (c12 & e12 & R12 & N12 & G12 & B12 & S12); [simpl; lia|].
  destruct (poseOfTime_returns t1 s Hp)
    as (p1 & f1 & Q1 & M1 & I1 & L1 & Z1).
  destruct (poseOfTime_returns t2 s Hp)
    as (p2 & f2 & Q2 & M2 & I2 & L2 & Z2).
  destruct (poseOfTime_returns t2 (set_positionCursor p1 s))
    as (p12 & f12 & Q12 & M12 & I12 & L12 & Z12); [simpl; lia|].
  simpl in *.
  assert (c1 <= c2)%nat as Hc12.
  { destruct S2 as [Hlast | Hge]; [lia|].
    destruct (Nat.le_gt_cases c1 c2) as [|Hgt]; [assumption|].
    specialize (B1 c2 e2 ltac:(lia) N2). lia. }
  assert (p1 <= p2)%nat as Hp12.
  { destruct Z2 as [Hlast | Hge]; [lia|].
    destruct (Nat.le_gt_cases p1 p2) as [|Hgt]; [assumption|].
    specialize (L1 p2 f2 ltac:(lia) M2). lia. }
  exists c1, c2, c12, p1, p2, p12.
  unfold exec. rewrite R1, R2, R12, Q1, Q2, Q12. simpl.
  split.
  - repeat (split; [reflexivity || lia|]).
    intros Hall. destruct S2 as [Hlast | Hge]; [assumption|].
    specialize (Hall e2 (nth_error_In _ _ N2)). lia.
  - repeat (split; [reflexivity || lia|]).
    intros Hall. destruct Z2 as [Hlast | Hge]; [assumption|].
    specialize (Hall f2 (nth_error_In _ _ M2)). lia.
Qed.

End Lookups.

(** C1 fails as worded: with commands stamped 0 s, 1 s and 2 s, a
    look-ahead of 0.5 s and the query time 0.4 s, the code moves to the
    command stamped 1 s (its test reads the stamp at the cursor, 0 s), where
    the rule on the next entry's stamp stays on the first command. *)
Lemma commandOfTime_differs_from_next_stamp_rule :
  commandOfTime 400000000 (node PLAY)
    = Returns 11 (set_commandCursor 1 (node PLAY)) /\
  commandAt_spec 400000000 (node PLAY) = Returns 10 (node PLAY) /\
  commandOfTime 400000000 (node PLAY) <> commandAt_spec 400000000 (node PLAY).
Proof.
  split; [reflexivity|]. split; [reflexivity|].
  vm_compute. intros H. discriminate H.
Qed.

Lemma commandOfTime_walks_on_current_stamp_witness :
  (commandCursor (node PLAY) < List.length (commands (node PLAY)))%nat /\
  exists c' e,
    commandOfTime 400000000 (node PLAY)
      = Returns (twist e) (set_commandCursor c' (node PLAY)) /\
    nth_error (commands (node PLAY)) c' = Some e /\
    (commandCursor (node PLAY) <= c'
       < List.length (commands (node PLAY)))%nat /\
    (forall i ei, (commandCursor (node PLAY) <= i < c')%nat ->
                  nth_error (commands (node PLAY)) i = Some ei ->
                  twist_stamp ei < 400000000 + lookahead (node PLAY)) /\
    (c' = (List.length (commands (node PLAY)) - 1)%nat \/
     400000000 + lookahead (node PLAY) <= twist_stamp e).
Proof.
  assert (commandCursor (node PLAY)
            < List.length (commands (node PLAY)))%nat as Hin
    by (simpl; lia).
  split; [exact Hin|].
  destruct (commandOfTime_walks_on_current_stamp 400000000 (node PLAY) Hin)
    as (c' & e & Hrun & He & Hrange & Hbelow & Hstop & _).
  exists c', e. auto.
Defined.

(** ** Playback clock and status machine *)

Section StatusMachine.

Context {ext : Externals}.

Lemma pausePlayback_returns (now : Time) (s : Repeat) :
  pausePlayback now s =
  let base' := baseSimTime s + (now - timePlaybackStarted s) in
  Returns tt
    (set_trace (trace s ++ [CommandPublished idleTwistCommand;
                            Logged Info "Paused at: %lf" (Some base')])
               (set_baseSimTime base' s)).
Proof.
  destruct s. unfold pausePlayback, bind, emit, modify, gets. simpl.
  rewrite <- app_assoc. reflexivity.
Qed.

Lemma simTime_returns (now : Time) (s : Repeat) :
  simTime now s =
  Returns (match currentStatus s with
           | PLAY => baseSimTime s + (now - timePlaybackStarted s)
           | _ => baseSimTime s
           end) s.
Proof.
  unfold simTime, bind, gets, ret.
  destruct (currentStatus s); reflexivity.
Qed.

(** Every request, in every status: the whole transition table. *)
Lemma switchToStatus_table (now : Time) (desiredStatus : Status) (s : Repeat) :
  switchToStatus now desiredStatus s =
  let base' := baseSimTime s + (now - timePlaybackStarted s) in
  Returns tt
    match currentStatus s, desiredStatus with
    | PLAY, PAUSE =>
        set_currentStatus PAUSE
          (set_trace (trace s ++ [Logged Info "Stopping playback." None;
                                  CommandPublished idleTwistCommand;
                                  Logged Info "Paused at: %lf" (Some base')])
             (set_baseSimTime base' s))
    | PAUSE, PLAY =>
        set_currentStatus PLAY
          (set_timePlaybackStarted now
             (set_trace (trace s ++ [Logged Info "Starting playback." None])
                        s))
    | ERROR, PAUSE =>
        set_currentStatus PAUSE
          (set_trace (trace s ++ [Logged Info "Attempting recovery." None]) s)
    | PLAY, ERROR | PAUSE, ERROR =>
        set_currentStatus ERROR
          (set_trace (trace s ++ [Logged Warn "Switching to emergency mode."
                                         None;
                                  CommandPublished idleTwistCommand;
                                  Logged Info "Paused at: %lf" (Some base')])
             (set_baseSimTime base' s))
    | _, _ => s
    end.
Proof.
  destruct s as [cs ps aps cc pc ac st base started la ctl lidar lock tr].
  destruct st, desiredStatus;
    unfold switchToStatus, pausePlayback, startPlayback,
           bind, emit, modify, gets, when, ret; simpl;
    repeat rewrite <- app_assoc; reflexivity.
Qed.

Lemma publishedCommands_app (a b : list Event) :
  publishedCommands (a ++ b) = publishedCommands a ++ publishedCommands b.
Proof.
  induction a as [|e a IH]; simpl; [reflexivity|].
  destruct e; simpl; rewrite IH; reflexivity.
Qed.

Lemma correctorCalls_app (a b : list Event) :
  correctorCalls (a ++ b) = correctorCalls a ++ correctorCalls b.
Proof.
  induction a as [|e a IH]; simpl; [reflexivity|].
  destruct e; simpl; rewrite IH; reflexivity.
Qed.

Lemma publishedPoses_app (a b : list Event) :
  publishedPoses (a ++ b) = publishedPoses a ++ publishedPoses b.
Proof.
  induction a as [|e a IH]; simpl; [reflexivity|].
  destruct e; simpl; rewrite IH; reflexivity.
Qed.


(** C3.  A request for ERROR in a status other than ERROR logs the warning,
    runs [pausePlayback] (which leaves the status as it was) and then sets
    the status: the node it returns is in ERROR, exactly one more command
    is on the command topic, the idle one, the elapsed wall time is added
    to the base time and the start of the segment is as it was.  A request
    for ERROR in status ERROR returns the node as it was. *)
Theorem switchToStatus_ERROR (now : Time) (s : Repeat) :
  (currentStatus s <> ERROR ->
   exists paused s',
     pausePlayback now
       (set_trace (trace s ++ [Logged Warn "Switching to emergency mode."
                                      None]) s)
       = Returns tt paused /\
     switchToStatus now ERROR s = Returns tt s' /\
     s' = set_currentStatus ERROR paused /\
     currentStatus paused = currentStatus s /\
     publishedCommands (trace paused)
       = publishedCommands (trace s) ++ [idleTwistCommand] /\
     baseSimTime paused
       = baseSimTime s + (now - timePlaybackStarted s) /\
     currentStatus s' = ERROR /\
     publishedCommands (trace s')
       = publishedCommands (trace s) ++ [idleTwistCommand] /\
     baseSimTime s' = baseSimTime s + (now - timePlaybackStarted s) /\
     timePlaybackStarted s' = timePlaybackStarted s) /\
  (currentStatus s = ERROR ->
   switchToStatus now ERROR s = Returns tt s /\
   currentStatus s = ERROR).
Proof.
  split.
  - intros Hne.
    destruct s as [cs ps aps cc pc ac st base started la ctl lidar lock tr].
    simpl in *.
    destruct st; try congruence;
      do 2 eexists;
      (split; [rewrite pausePlayback_returns; reflexivity|]);
      rewrite switchToStatus_table; simpl;
      repeat rewrite <- app_assoc; simpl;
      (split; [reflexivity|]);
      (split; [reflexivity|]);
      (split; [reflexivity|]);
      simpl; repeat rewrite <- app_assoc; simpl;
      rewrite !publishedCommands_app; simpl;
      repeat split; reflexivity.
  - intros He. split; [|assumption].
    rewrite switchToStatus_table, He. reflexivity.
Qed.

(** C5.  A request for PLAY or PAUSE (what the joystick can ask for) is
    honoured on three edges only.  PAUSE to PLAY: logs, runs
    [startPlayback], sets PLAY.  PLAY to PAUSE: logs, runs [pausePlayback],
    sets PAUSE.  ERROR to PAUSE: logs and sets PAUSE, with no idle command
    and no change of the clock.  Any other such request returns the node
    unchanged; and a joystick message in ERROR whose X button is not 1
    returns the node unchanged whatever its RB button is. *)
Theorem manual_transitions (now : Time) (desiredStatus : Status)
        (buttons : list Z) (x : Z) (s : Repeat) :
  desiredStatus <> ERROR ->
  (exists s',
     switchToStatus now desiredStatus s = Returns tt s' /\
     match currentStatus s, desiredStatus with
     | PAUSE, PLAY =>
         exists started,
           exec (startPlayback now)
                (set_trace (trace s ++ [Logged Info "Starting playback." None])
                           s) = Some started /\
           s' = set_currentStatus PLAY started /\
           timePlaybackStarted s' = now /\
           baseSimTime s' = baseSimTime s /\
           publishedCommands (trace s') = publishedCommands (trace s)
     | PLAY, PAUSE =>
         exists paused,
           exec (pausePlayback now)
                (set_trace (trace s ++ [Logged Info "Stopping playback." None])
                           s) = Some paused /\
           s' = set_currentStatus PAUSE paused /\
           baseSimTime s' = baseSimTime s + (now - timePlaybackStarted s) /\
           publishedCommands (trace s')
             = publishedCommands (trace s) ++ [idleTwistCommand]
     | ERROR, PAUSE =>
         s' = set_currentStatus PAUSE
                (set_trace (trace s ++ [Logged Info "Attempting recovery."
                                               None]) s) /\
         publishedCommands (trace s') = publishedCommands (trace s) /\
         baseSimTime s' = baseSimTime s /\
         timePlaybackStarted s' = timePlaybackStarted s
     | _, _ => s' = s
     end) /\
  (currentStatus s = ERROR ->
   nth_error buttons X = Some x -> x <> 1 ->
   joystickCallback now buttons s = Returns tt s).
Proof.
  intros Hne. split.
  - eexists. split; [rewrite switchToStatus_table; reflexivity|].
    destruct s as [cs ps aps cc pc ac st base started la ctl lidar lock tr].
    simpl.
    destruct st, desiredStatus; try congruence; simpl;
      try reflexivity;
      try (eexists; unfold exec; try rewrite pausePlayback_returns; simpl;
           split; [reflexivity|]);
      repeat rewrite publishedCommands_app; simpl;
      repeat rewrite app_nil_r; repeat rewrite <- app_assoc;
      repeat split; reflexivity.
  - intros He Hx Hx1.
    unfold joystickCallback, bind, gets, button, lift.
    rewrite He, Hx.
    replace (x =? 1) with false by (symmetry; apply Z.eqb_neq; assumption).
    reflexivity.
Qed.

Lemma playPauseCycles_accumulate (segments : list (Time * Time)) :
  forall s,
    currentStatus s = PAUSE ->
    exists s',
      playPauseCycles segments s = Returns tt s' /\
      currentStatus s' = PAUSE /\
      baseSimTime s' = baseSimTime s + segmentsTotal segments.
Proof.
  induction segments as [|[started paused] rest IH]; intros s Hs.
  - exists s. simpl. unfold ret. repeat split; auto. lia.
  - cbn [playPauseCycles]. unfold bind.
    rewrite switchToStatus_table, Hs. cbv beta iota zeta.
    rewrite switchToStatus_table. simpl.
    match goal with
    | |- exists s', playPauseCycles rest ?mid = _ /\ _ =>
        destruct (IH mid) as (s' & Hrun & Hst & Hbase); [reflexivity|]
    end.
    exists s'. split; [assumption|]. split; [assumption|].
    rewrite Hbase. simpl. lia.
Qed.

Lemma joystickCallback_in_PLAY (now : Time) (buttons : list Z) (b : Z)
      (s : Repeat) :
  currentStatus s = PLAY ->
  nth_error buttons RB = Some b ->
  joystickCallback now buttons s =
  if b =? 0 then switchToStatus now PAUSE s else Returns tt s.
Proof.
  intros Hs Hb. unfold joystickCallback, bind, gets, button, lift, when.
  rewrite Hs, Hb. destruct (b =? 0); reflexivity.
Qed.

(** C10.  The callback looks at the button value of the message at hand
    only.  In PLAY a message whose RB value is 0 leaves the node in PAUSE;
    in PAUSE a message whose RB value is 1 leaves it in PLAY; and over
    consecutive messages received in PLAY the node is in PLAY after each of
    them exactly when no message has RB value 0. *)
Theorem pause_is_level_triggered
        (now : Time) (buttons : list Z)
        (msgs : list (Time * list Z)) (s : Repeat) :
  (currentStatus s = PLAY -> nth_error buttons RB = Some 0 ->
   exists s', joystickCallback now buttons s = Returns tt s' /\
              currentStatus s' = PAUSE) /\
  (currentStatus s = PAUSE -> nth_error buttons RB = Some 1 ->
   exists s', joystickCallback now buttons s = Returns tt s' /\
              currentStatus s' = PLAY) /\
  (currentStatus s = PLAY ->
   Forall (fun m => exists b, nth_error (snd m) RB = Some b) msgs ->
   (statusesAlong msgs s = repeat PLAY (List.length msgs) <->
    Forall (fun m => nth_error (snd m) RB <> Some 0) msgs)).
Proof.
  split; [|split].
  - intros Hs Hb.
    rewrite (joystickCallback_in_PLAY now buttons 0 s Hs Hb).
    rewrite Z.eqb_refl, switchToStatus_table, Hs.
    eexists. split; reflexivity.
  - intros Hs Hb.
    unfold joystickCallback, bind, gets, button, lift, when.
    rewrite Hs, Hb, Z.eqb_refl, switchToStatus_table, Hs.
    eexists. split; reflexivity.
  - intros Hs Hdef. induction Hdef as [|[t bs] rest (b & Hb) Hrest IH].
    + simpl. split; intros; [constructor | reflexivity].
    + simpl in Hb. simpl.
      rewrite (joystickCallback_in_PLAY t bs b s Hs Hb).
      destruct (b =? 0) eqn:Hz.
      * apply Z.eqb_eq in Hz. subst b.
        rewrite switchToStatus_table, Hs. simpl. split.
        -- intros H. discriminate H.
        -- intros H. inversion H as [|? ? Hhead ?]; subst.
           simpl in Hhead. congruence.
      * apply Z.eqb_neq in Hz. rewrite Hs. split.
        -- intros H. injection H as H. constructor.
           ++ simpl. rewrite Hb. congruence.
           ++ apply IH. assumption.
        -- intros H. inversion H as [|? ? Hhead Htail]; subst.
           f_equal. apply IH. assumption.
Qed.

End StatusMachine.

(** ** One cycle of the main loop *)

Section Cycle.

Context {ext : Externals}.

Ltac fields :=
  cbn [commands positions anchorPoints commandCursor positionCursor
       anchorPointCursor currentStatus baseSimTime timePlaybackStarted
       lookahead controller tFromLidarToRobot serviceCallLock trace
       set_commandCursor set_positionCursor set_anchorPointCursor
       set_currentStatus set_baseSimTime set_timePlaybackStarted
       set_lookahead set_controller set_serviceCallLock set_trace
       negb andb Status_eqb].

Ltac step := cbv beta iota; fields.

Lemma spin_body_returns (clk : Clock) (s : Repeat) :
  cursorsOnElements s ->
  let t1 := match currentStatus s with
            | PLAY => baseSimTime s + (now_spin clk - timePlaybackStarted s)
            | _ => baseSimTime s
            end in
  let t2 := match currentStatus s with
            | PLAY => baseSimTime s + (now_pose clk - timePlaybackStarted s)
            | _ => baseSimTime s
            end in
  let playing := Status_eqb (currentStatus s) PLAY in
  let it := anchorPointCursor s in
  exists p1 e1 c2 ec p2 e2,
    poseOfTime t1 s = Returns (pose e1) (set_positionCursor p1 s) /\
    commandOfTime t1 s = Returns (twist ec) (set_commandCursor c2 s) /\
    poseOfTime t2 (set_positionCursor p1 s)
      = Returns (pose e2) (set_positionCursor p2 s) /\
    let closer := nextAnchorIsCloser (pose e1) (anchorPoints s) it in
    let corrected := correctCommand (controller s) (twist ec) in
    spin_body clk s =
    Returns tt
      (set_trace
         (trace s
          ++ (if closer
              then switchNotice (now_switch clk) (anchorPoints s) (S it)
              else [])
          ++ (if playing
              then [CorrectCommandCalled (twist ec);
                    CommandPublished (fst corrected)]
              else [])
          ++ [ReferencePosePublished (pose e2)])
         (set_positionCursor p2
            (set_controller (if playing then snd corrected else controller s)
               (set_commandCursor (if playing then c2 else commandCursor s)
                  (set_anchorPointCursor (if closer then S it else it) s))))).
Proof.
  intros (Hc & Hp & Ha) t1 t2 playing it.
  destruct (poseOfTime_returns t1 s Hp) as (p1 & e1 & R1 & N1 & G1 & B1 & S1).
  destruct (commandOfTime_returns t1 s Hc) as (c2 & ec & Rc & _).
  destruct (poseOfTime_returns t2 (set_positionCursor p1 s))
    as (p2 & e2 & R2 & _); [simpl; lia|].
  exists p1, e1, c2, ec, p2, e2.
  split; [assumption|]. split; [assumption|]. split; [exact R2|].
  intros closer corrected.
  pose proof (poseOfTime_again t1 s p1 e1 N1 S1) as R1'.
  assert (forall s3 : Repeat,
            positions s3 = positions s -> positionCursor s3 = p1 ->
            poseOfTime t2 s3 = Returns (pose e2) (set_positionCursor p2 s3))
    as R2'.
  { intros s3 Hps Hpc.
    apply (poseOfTime_frame t2 (set_positionCursor p1 s)); assumption. }
  assert (forall s3 : Repeat,
            commands s3 = commands s -> commandCursor s3 = commandCursor s ->
            lookahead s3 = lookahead s ->
            commandOfTime t1 s3
              = Returns (twist ec) (set_commandCursor c2 s3)) as Rc'.
  { intros s3 H1 H2 H3. apply (commandOfTime_frame t1 s); assumption. }
  unfold spin_body, bind.
  rewrite simTime_returns. fold t1. step.
  rewrite R1.
  unfold when, emit, gets, modify, derefAnchorPoint, lift, deref, ret.
  step. fold it.
  destruct (nth_error (anchorPoints s) it) as [ap|] eqn:Hap.
  2:{ apply nth_error_None in Hap. unfold it in Hap. lia. }
  step.
  assert (closer =
          match nth_error (anchorPoints s) (S it) with
          | Some nxt => (customDistance (pose e1) (getPosition nxt)
                           <=? customDistance (pose e1) (getPosition ap))%float
          | None => false
          end) as Hcloser.
  { unfold closer, nextAnchorIsCloser. rewrite Hap. reflexivity. }
  unfold switchNotice.
  destruct (nth_error (anchorPoints s) (S it)) as [nxt|] eqn:Hnxt.
  - assert (S it < List.length (anchorPoints s))%nat as Hlt
        by (apply nth_error_Some; congruence).
    replace (S it =? List.length (anchorPoints s))%nat with false
      by (symmetry; apply Nat.eqb_neq; lia).
    replace (S it <? List.length (anchorPoints s))%nat with true
      by (symmetry; apply Nat.ltb_lt; lia).
    step. rewrite R1'. step. rewrite Hnxt. step.
    rewrite Hcloser.
    destruct (customDistance (pose e1) (getPosition nxt)
                <=? customDistance (pose e1) (getPosition ap))%float.
    + step. rewrite Hnxt. step.
      unfold playing.
      destruct (currentStatus s) eqn:Hst; step;
        try (rewrite Rc' by reflexivity; step);
        rewrite simTime_returns; step; rewrite Hst; fold t2;
        rewrite R2' by reflexivity; step;
        destruct s; simpl; repeat rewrite <- app_assoc; reflexivity.
    + step.
      unfold playing.
      destruct (currentStatus s) eqn:Hst; step;
        try (rewrite Rc' by reflexivity; step);
        rewrite simTime_returns; step; rewrite Hst; fold t2;
        rewrite R2' by reflexivity; step;
        destruct s; simpl; repeat rewrite <- app_assoc; reflexivity.
  - assert (S it = List.length (anchorPoints s)) as Hend.
    { apply nth_error_None in Hnxt. unfold it in *. lia. }
    rewrite <- Hend. rewrite Nat.eqb_refl, Nat.ltb_irrefl.
    step. rewrite Hcloser.
    unfold playing.
    destruct (currentStatus s) eqn:Hst; step;
      try (rewrite Rc' by reflexivity; step);
      rewrite simTime_returns; step; rewrite Hst; fold t2;
      rewrite R2' by reflexivity; step;
      destruct s; simpl; repeat rewrite <- app_assoc; reflexivity.
Qed.

Lemma anchorSwitches_app (a b : list Event) :
  anchorSwitches (a ++ b) = anchorSwitches a ++ anchorSwitches b.
Proof.
  induction a as [|e a IH]; simpl; [reflexivity|].
  destruct e; simpl; rewrite IH; reflexivity.
Qed.

(** Equal distances compare as "not farther". *)
Lemma float_tie (a b : float) :
  (a =? b)%float = true -> (a <=? b)%float = true.
Proof.
  rewrite eqb_spec, leb_spec. unfold SFeqb, SFleb.
  destruct (SFcompare (Prim2SF a) (Prim2SF b)) as [[]|]; congruence.
Qed.

(** C4.  In a cycle of a node whose cursors are on elements, with [here]
    the pose that [poseOfTime] returns for the sim time at the top of the
    cycle: the anchor cursor moves by one exactly when a next anchor exists
    and its distance to [here] is less than or equal to the current
    anchor's, and stays otherwise; equal distances move it; it stays on an
    element of the anchor sequence; and a move publishes one switch
    notification, with the clock reading and the name of the anchor moved
    to, where no move publishes none. *)
Theorem anchor_cursor_advances_when_next_is_closer (clk : Clock) (s : Repeat) :
  cursorsOnElements s ->
  exists here s1 s',
    bind (simTime (now_spin clk)) poseOfTime s = Returns here s1 /\
    spin_body clk s = Returns tt s' /\
    anchorPoints s' = anchorPoints s /\
    let it := anchorPointCursor s in
    let closer := nextAnchorIsCloser here (anchorPoints s) it in
    anchorPointCursor s' = (if closer then S it else it) /\
    (anchorPointCursor s' < List.length (anchorPoints s))%nat /\
    (closer = true <->
     exists cur nxt,
       nth_error (anchorPoints s) it = Some cur /\
       nth_error (anchorPoints s) (S it) = Some nxt /\
       (customDistance here (getPosition nxt)
          <=? customDistance here (getPosition cur))%float = true) /\
    (forall cur nxt,
       nth_error (anchorPoints s) it = Some cur ->
       nth_error (anchorPoints s) (S it) = Some nxt ->
       (customDistance here (getPosition nxt)
          =? customDistance here (getPosition cur))%float = true ->
       closer = true) /\
    (closer = true ->
     exists ap,
       nth_error (anchorPoints s) (anchorPointCursor s') = Some ap /\
       anchorSwitches (trace s')
         = anchorSwitches (trace s) ++ [(now_switch clk, name ap)]) /\
    (closer = false ->
     anchorSwitches (trace s') = anchorSwitches (trace s)).
Proof.
  intros Hwf.
  destruct (spin_body_returns clk s Hwf)
    as (p1 & e1 & c2 & ec & p2 & e2 & R1 & Rc & R2 & Hbody).
  destruct Hwf as (Hc & Hp & Ha).
  exists (pose e1), (set_positionCursor p1 s). eexists.
  split.
  { unfold bind. rewrite simTime_returns. exact R1. }
  split; [exact Hbody|].
  clear Hbody. fields.
  split; [reflexivity|].
  set (it := anchorPointCursor s).
  set (closer := nextAnchorIsCloser (pose e1) (anchorPoints s) it).
  split; [reflexivity|].
  assert (closer = true <->
          exists cur nxt,
            nth_error (anchorPoints s) it = Some cur /\
            nth_error (anchorPoints s) (S it) = Some nxt /\
            (customDistance (pose e1) (getPosition nxt)
               <=? customDistance (pose e1) (getPosition cur))%float = true)
    as Hiff.
  { unfold closer, nextAnchorIsCloser.
    destruct (nth_error (anchorPoints s) it) as [cur|];
      destruct (nth_error (anchorPoints s) (S it)) as [nxt|]; split;
      try discriminate;
      try (intros (cur' & nxt' & H1 & H2 & _); discriminate).
    - intros H. exists cur, nxt. auto.
    - intros (cur' & nxt' & H1 & H2 & H3).
      inversion H1; inversion H2; subst. assumption. }
  split.
  { destruct closer eqn:Hcl; [|exact Ha].
    destruct (proj1 Hiff eq_refl) as (cur & nxt & _ & Hn & _).
    apply nth_error_Some. congruence. }
  split; [exact Hiff|].
  split.
  { intros cur nxt H1 H2 Htie. apply Hiff.
    exists cur, nxt. auto using float_tie. }
  split.
  - intros Hcl. rewrite Hcl.
    destruct (proj1 Hiff Hcl) as (cur & nxt & _ & Hn & _).
    exists nxt. split; [exact Hn|].
    unfold switchNotice. fold it. rewrite Hn.
    rewrite !anchorSwitches_app.
    destruct (Status_eqb (currentStatus s) PLAY); simpl;
      rewrite ?app_nil_r; reflexivity.
  - intros Hcl. rewrite Hcl.
    rewrite !anchorSwitches_app.
    destruct (Status_eqb (currentStatus s) PLAY); simpl;
      rewrite ?app_nil_r; reflexivity.
Qed.

(** C8.  In a cycle of a node whose cursors are on elements the status is
    left as it was, and: in PLAY the command for the sim time at the top of
    the cycle is handed to the corrector once and the corrected command is
    published once; outside PLAY the corrector is not called, nothing is
    published on the command topic and the command cursor stays; in every
    status the pose for the sim time read at the end of the cycle is
    published once, and the anchor cursor is updated by the distance
    rule. *)
Theorem command_published_iff_playing (clk : Clock) (s : Repeat) :
  cursorsOnElements s ->
  exists s' here s1 reference s2,
    spin_body clk s = Returns tt s' /\
    currentStatus s' = currentStatus s /\
    (currentStatus s = PLAY ->
     exists cmd s3,
       bind (simTime (now_spin clk)) commandOfTime s = Returns cmd s3 /\
       correctorCalls (trace s') = correctorCalls (trace s) ++ [cmd] /\
       publishedCommands (trace s')
         = publishedCommands (trace s)
           ++ [fst (correctCommand (controller s) cmd)] /\
       controller s' = snd (correctCommand (controller s) cmd)) /\
    (currentStatus s <> PLAY ->
     correctorCalls (trace s') = correctorCalls (trace s) /\
     publishedCommands (trace s') = publishedCommands (trace s) /\
     controller s' = controller s /\
     commandCursor s' = commandCursor s) /\
    bind (simTime (now_spin clk)) poseOfTime s = Returns here s1 /\
    bind (simTime (now_pose clk)) poseOfTime s1 = Returns reference s2 /\
    publishedPoses (trace s') = publishedPoses (trace s) ++ [reference] /\
    anchorPointCursor s' =
      (if nextAnchorIsCloser here (anchorPoints s) (anchorPointCursor s)
       then S (anchorPointCursor s) else anchorPointCursor s).
Proof.
  intros Hwf.
  destruct (spin_body_returns clk s Hwf)
    as (p1 & e1 & c2 & ec & p2 & e2 & R1 & Rc & R2 & Hbody).
  eexists. exists (pose e1), (set_positionCursor p1 s).
  exists (pose e2), (set_positionCursor p2 s).
  split; [exact Hbody|]. clear Hbody. fields.
  split; [reflexivity|].
  split.
  { intros Hplay. exists (twist ec), (set_commandCursor c2 s).
    split; [unfold bind; rewrite simTime_returns; exact Rc|].
    rewrite Hplay. simpl Status_eqb. cbv iota.
    rewrite !correctorCalls_app, !publishedCommands_app.
    unfold switchNotice.
    destruct (nextAnchorIsCloser _ _ _);
      [destruct (nth_error (anchorPoints s) (S (anchorPointCursor s)))|];
      simpl; rewrite ?app_nil_r; auto. }
  split.
  { intros Hnot.
    assert (Status_eqb (currentStatus s) PLAY = false) as Hno.
    { destruct (currentStatus s); simpl; congruence. }
    rewrite Hno.
    rewrite !correctorCalls_app, !publishedCommands_app.
    unfold switchNotice.
    destruct (nextAnchorIsCloser _ _ _);
      [destruct (nth_error (anchorPoints s) (S (anchorPointCursor s)))|];
      simpl; rewrite ?app_nil_r; auto. }
  split; [unfold bind; rewrite simTime_returns; exact R1|].
  split.
  { unfold bind. rewrite simTime_returns. fields. exact R2. }
  split; [|reflexivity].
  rewrite !publishedPoses_app.
  unfold switchNotice.
  destruct (nextAnchorIsCloser _ _ _);
    [destruct (nth_error (anchorPoints s) (S (anchorPointCursor s)))|];
    destruct (Status_eqb (currentStatus s) PLAY);
    simpl; rewrite ?app_nil_r; auto.
Qed.


End Cycle.

(** ** The playback clock over the whole node *)

Section PlaybackClock.

Context {ext : Externals}.

(** C2, as the code has it.  Outside a request for ERROR made in PAUSE, a
    request to switch status changes the clock fields on three edges only:
    PLAY to PAUSE and PLAY to ERROR add the elapsed wall time to the base
    time, PAUSE to PLAY records the start of the segment.  A cycle of the
    main loop and a reconfiguration leave the clock fields alone.
    [simTime] is the base time outside PLAY and the base time plus the
    running segment in PLAY.  Over alternating resume and pause requests
    the lengths of the PLAY segments add up in the base time, which is then
    what [simTime] returns. *)
Theorem sim_clock_mutated_on_three_edges
        (now : Time) (desiredStatus : Status)
        (segments : list (Time * Time))
        (clk : Clock) (params : RepeatConfig) (s : Repeat) :
  ~ (currentStatus s = PAUSE /\ desiredStatus = ERROR) ->
  (exists s',
     switchToStatus now desiredStatus s = Returns tt s' /\
     (baseSimTime s', timePlaybackStarted s') =
     match currentStatus s, desiredStatus with
     | PLAY, PAUSE | PLAY, ERROR =>
         (baseSimTime s + (now - timePlaybackStarted s),
          timePlaybackStarted s)
     | PAUSE, PLAY => (baseSimTime s, now)
     | _, _ => (baseSimTime s, timePlaybackStarted s)
     end) /\
  (cursorsOnElements s ->
   exists s',
     spin_body clk s = Returns tt s' /\
     baseSimTime s' = baseSimTime s /\
     timePlaybackStarted s' = timePlaybackStarted s) /\
  (exists s',
     paramCallback params s = Returns tt s' /\
     baseSimTime s' = baseSimTime s /\
     timePlaybackStarted s' = timePlaybackStarted s) /\
  simTime now s =
    Returns (match currentStatus s with
             | PLAY => baseSimTime s + (now - timePlaybackStarted s)
             | _ => baseSimTime s
             end) s /\
  (currentStatus s = PAUSE ->
   exists s',
     playPauseCycles segments s = Returns tt s' /\
     currentStatus s' = PAUSE /\
     baseSimTime s' = baseSimTime s + segmentsTotal segments /\
     forall t, simTime t s'
               = Returns (baseSimTime s + segmentsTotal segments) s').
Proof.
  intros Hedge. split; [|split; [|split; [|split]]].
  - eexists. split; [rewrite switchToStatus_table; reflexivity|].
    destruct s as [cs ps aps cc pc ac st base started la ctl lidar lock tr].
    simpl in *.
    destruct st, desiredStatus; simpl; try reflexivity.
    exfalso. apply Hedge. split; reflexivity.
  - intros Hwf.
    destruct (spin_body_returns clk s Hwf)
      as (p1 & e1 & c2 & ec & p2 & e2 & _ & _ & _ & Hbody).
    eexists. split; [exact Hbody|]. split; reflexivity.
  - eexists. split; [reflexivity|]. split; reflexivity.
  - apply simTime_returns.
  - intros Hs.
    destruct (playPauseCycles_accumulate segments s Hs)
      as (s' & Hrun & Hst & Hbase).
    exists s'. repeat (split; [assumption|]).
    intros t. rewrite simTime_returns, Hst, Hbase. reflexivity.
Qed.

End PlaybackClock.

(** ** The main loop *)

Section MainLoop.

Context {ext : Externals}.

Lemma spin_condition_returns (ok : bool) (s : Repeat) :
  spin_condition ok s =
  if ok then
    match commands s with
    | [] => Undefined
    | _ :: _ =>
        Returns (commandCursor s <? List.length (commands s) - 1)%nat s
    end
  else Returns false s.
Proof.
  unfold spin_condition, bind, gets, lift, ret.
  destruct ok; [|reflexivity].
  destruct (commands s); reflexivity.
Qed.

(** C9.  With commands loaded, the loop leaves without running its body
    when [ros::ok()] is false or the command cursor is on the last command,
    and a cycle's body runs only under [ros::ok()] with the cursor before
    the last command.  With no command loaded and [ros::ok()] true, the
    loop condition forms [commands.end() - 1] on an empty vector: the loop
    does not leave with zero cycles run, its behaviour is undefined.  That
    is the case of every node constructed when the command file cannot be
    opened. *)
Theorem spin_condition_on_loaded_and_unloaded_commands
        (cy : Cycle) (rest : list Cycle) (s : Repeat) :
  (commands s <> [] ->
   (ros_ok cy = false \/
    (List.length (commands s) - 1 <= commandCursor s)%nat) ->
   spin (cy :: rest) s = Returns O s) /\
  (forall n s',
     spin (cy :: rest) s = Returns (S n) s' ->
     ros_ok cy = true /\
     (commandCursor s < List.length (commands s) - 1)%nat) /\
  (commands s = [] -> ros_ok cy = true ->
   spin (cy :: rest) s = Undefined /\
   spin (cy :: rest) s <> Returns O s) /\
  (forall chdir positionsFile anchors ctl ahead lidar,
     ros_ok cy = true ->
     spin (cy :: rest)
          (Repeat_new chdir None positionsFile anchors ctl ahead lidar)
       = Undefined).
Proof.
  split; [|split; [|split]];
    [| | | intros chdir pf af ctl ahead lidar Hok;
           cbn [spin]; unfold bind; rewrite spin_condition_returns, Hok;
           reflexivity];
    cbn [spin]; unfold bind; rewrite spin_condition_returns.
  - intros Hne Hstop.
    destruct (ros_ok cy); [|reflexivity].
    destruct (commands s) as [|c cs] eqn:Hcs; [congruence|].
    destruct Hstop as [Hok | Hlast]; [discriminate Hok|].
    replace (commandCursor s <? List.length (c :: cs) - 1)%nat with false
      by (symmetry; apply Nat.ltb_ge; exact Hlast).
    reflexivity.
  - intros n s' Hrun.
    destruct (ros_ok cy); [|discriminate Hrun].
    destruct (commands s) as [|c cs] eqn:Hcs; [discriminate Hrun|].
    destruct (commandCursor s <? List.length (c :: cs) - 1)%nat eqn:Hlt;
      [|discriminate Hrun].
    apply Nat.ltb_lt in Hlt. auto.
  - intros Hcs Hok. rewrite Hok, Hcs.
    split; [reflexivity | discriminate].
Qed.

End MainLoop.

(** ** The properties at the concrete node *)

(** C2 fails as worded: a request for ERROR made in PLAY adds the elapsed
    wall time to the base time, on an edge that is neither PLAY to PAUSE nor
    PAUSE to PLAY. *)
Lemma sim_clock_mutated_on_fault_edge :
  exists s',
    switchToStatus 5 ERROR (node PLAY) = Returns tt s' /\
    baseSimTime (node PLAY) = 0 /\
    baseSimTime s' = 5 /\
    currentStatus (node PLAY) = PLAY /\
    currentStatus s' = ERROR /\
    ~ ((currentStatus (node PLAY) = PLAY /\ currentStatus s' = PAUSE) \/
       (currentStatus (node PLAY) = PAUSE /\ currentStatus s' = PLAY)).
Proof.
  eexists. split; [reflexivity|].
  repeat (split; [reflexivity|]).
  simpl. intros [[_ H] | [H _]]; discriminate H.
Qed.

(** The same request made in PAUSE adds the time since the start of the
    last PLAY segment to the base time, although no segment is running. *)
Example error_in_pause_adds_stale_interval :
  exists s1 s2 s3,
    switchToStatus 10 PLAY (node PAUSE) = Returns tt s1 /\
    switchToStatus 14 PAUSE s1 = Returns tt s2 /\
    baseSimTime s2 = 4 /\
    switchToStatus 100 ERROR s2 = Returns tt s3 /\
    baseSimTime s3 = 94.
Proof. do 3 eexists. repeat (split; [reflexivity|]). reflexivity. Qed.

Lemma sim_clock_mutated_on_three_edges_witness :
  ~ (currentStatus (node PAUSE) = PAUSE /\ PLAY = ERROR) /\
  exists s',
    playPauseCycles [(10, 14); (20, 23)] (node PAUSE) = Returns tt s' /\
    baseSimTime s' = 7.
Proof.
  assert (~ (currentStatus (node PAUSE) = PAUSE /\ PLAY = ERROR)) as Hedge
    by (intros [_ H]; discriminate H).
  split; [exact Hedge|].
  destruct (@sim_clock_mutated_on_three_edges Demo.ext
              5 PLAY [(10, 14); (20, 23)] (steady 5) 0 (node PAUSE) Hedge)
    as (_ & _ & _ & _ & Hcycles).
  destruct (Hcycles eq_refl) as (s' & Hrun & _ & Hbase & _).
  exists s'. split; [exact Hrun | exact Hbase].
Defined.

Lemma manual_transitions_witness :
  PLAY <> ERROR /\
  exists s',
    switchToStatus 5 PLAY (node PAUSE) = Returns tt s' /\
    currentStatus s' = PLAY.
Proof.
  assert (PLAY <> ERROR) as Hne by discriminate.
  split; [exact Hne|].
  destruct (manual_transitions 5 PLAY (buttonsWith 1 0) 0 (node PAUSE) Hne)
    as ((s' & Hrun & started & _ & Hs' & _) & _).
  exists s'. split; [exact Hrun|]. rewrite Hs'. reflexivity.
Defined.

Lemma cursors_monotone_and_bounded_witness :
  0 <= 1500000000 /\
  (commandCursor (node PLAY) < List.length (commands (node PLAY)))%nat /\
  (positionCursor (node PLAY) < List.length (positions (node PLAY)))%nat /\
  exists c1 c2 : nat,
    option_map commandCursor (exec (commandOfTime 0) (node PLAY)) = Some c1 /\
    option_map commandCursor (exec (commandOfTime 1500000000) (node PLAY))
      = Some c2 /\
    (c1 <= c2)%nat.
Proof.
  assert (0 <= 1500000000) as Ht by lia.
  assert (commandCursor (node PLAY)
            < List.length (commands (node PLAY)))%nat as Hc
    by (simpl; lia).
  assert (positionCursor (node PLAY)
            < List.length (positions (node PLAY)))%nat as Hp
    by (simpl; lia).
  repeat (split; [assumption|]).
  destruct (cursors_monotone_and_bounded (node PLAY) 0 1500000000 Ht Hc Hp)
    as (c1 & c2 & c12 & p1 & p2 & p12 & (H1 & H2 & _ & _ & _ & Hle & _) & _).
  exists c1, c2. auto.
Defined.

Lemma anchor_cursor_advances_when_next_is_closer_witness :
  cursorsOnElements (node PLAY) /\
  exists s',
    spin_body (steady 2000000000) (node PLAY) = Returns tt s' /\
    (anchorPointCursor s' < List.length (anchorPoints (node PLAY)))%nat.
Proof.
  assert (cursorsOnElements (node PLAY)) as Hwf
    by (unfold cursorsOnElements; simpl; lia).
  split; [exact Hwf|].
  destruct (anchor_cursor_advances_when_next_is_closer
              (steady 2000000000) (node PLAY) Hwf)
    as (here & s1 & s' & _ & Hbody & _ & _ & Hin & _).
  exists s'. split; [exact Hbody | exact Hin].
Defined.

Lemma command_published_iff_playing_witness :
  cursorsOnElements (node PAUSE) /\
  exists s',
    spin_body (steady 2000000000) (node PAUSE) = Returns tt s' /\
    currentStatus s' = currentStatus (node PAUSE).
Proof.
  assert (cursorsOnElements (node PAUSE)) as Hwf
    by (unfold cursorsOnElements; simpl; lia).
  split; [exact Hwf|].
  destruct (command_published_iff_playing (steady 2000000000) (node PAUSE) Hwf)
    as (s' & here & s1 & reference & s2 & Hbody & Hst & _).
  exists s'. split; [exact Hbody | exact Hst].
Defined.


Lemma spin_condition_on_loaded_and_unloaded_commands_witness :
  commands unloaded = [] /\
  spin [ {| ros_ok := true; clock := steady 5; pending := [] |} ] unloaded
    = Undefined.
Proof.
  split; [reflexivity|].
  destruct (spin_condition_on_loaded_and_unloaded_commands
              {| ros_ok := true; clock := steady 5; pending := [] |}
              [] unloaded) as (_ & _ & Hempty & _).
  destruct (Hempty eq_refl eq_refl) as (Hundef & _). exact Hundef.
Defined.

Lemma switchToStatus_ERROR_witness :
  currentStatus (node PLAY) <> ERROR /\
  exists s',
    switchToStatus 5 ERROR (node PLAY) = Returns tt s' /\
    currentStatus s' = ERROR /\
    baseSimTime s' = 5 /\
    publishedCommands (trace s') = [idleTwistCommand].
Proof.
  assert (currentStatus (node PLAY) <> ERROR) as Hne by discriminate.
  split; [exact Hne|].
  destruct (switchToStatus_ERROR 5 (node PLAY)) as (Hfault & _).
  destruct (Hfault Hne)
    as (paused & s' & _ & Hrun & _ & _ & _ & _ & Hst & Hpub & Hbase & _).
  exists s'.
  split; [exact Hrun|]. split; [exact Hst|].
  split; [exact Hbase | exact Hpub].
Defined.

Lemma pause_is_level_triggered_witness :
  currentStatus (node PLAY) = PLAY /\
  nth_error (buttonsWith 0 0) RB = Some 0 /\
  exists s',
    joystickCallback 7 (buttonsWith 0 0) (node PLAY) = Returns tt s' /\
    currentStatus s' = PAUSE.
Proof.
  split; [reflexivity|]. split; [reflexivity|].
  destruct (pause_is_level_triggered 7 (buttonsWith 0 0) [] (node PLAY))
    as (Hpause & _).
  exact (Hpause eq_refl eq_refl).
Defined.

(** * Further properties of the node *)

(** ** Lookups in sequence *)

Section LookupSequences.

Context {ext : Externals}.

Lemma commandOfTime_again (time : Time) (s : Repeat) (c' : nat)
      (e : TwistStamped) :
  nth_error (commands s) c' = Some e ->
  (c' = (List.length (commands s) - 1)%nat \/
   time + lookahead s <= twist_stamp e) ->
  commandOfTime time (set_commandCursor c' s) =
  Returns (twist e) (set_commandCursor c' s).
Proof.
  intros He Hstop.
  assert (c' < List.length (commands s))%nat as Hin
    by (apply nth_error_Some; congruence).
  unfold commandOfTime, bind, gets.
  rewrite commandOfTime_loop_walk. simpl.
  rewrite advance_again.
  - unfold derefCommand, lift, deref. simpl. rewrite He. reflexivity.
  - rewrite length_map. assumption.
  - rewrite length_map. destruct Hstop as [Hlast|Hge]; [left; assumption|].
    right. exists (twist_stamp e). rewrite nth_error_map, He. auto.
Qed.

(** X2.  A lookup for a time [t1] followed by a lookup for a later time
    [t2] returns the entry, and leaves the node, of the lookup for [t2]
    alone: the answer does not depend on the queries made in between. *)
Theorem later_query_absorbs_earlier (s : Repeat) (t1 t2 : Time) :
  t1 <= t2 ->
  (commandCursor s < List.length (commands s))%nat ->
  (positionCursor s < List.length (positions s))%nat ->
  bind (commandOfTime t1) (fun _ => commandOfTime t2) s = commandOfTime t2 s /\
  bind (poseOfTime t1) (fun _ => poseOfTime t2) s = poseOfTime t2 s.
Proof.
  intros Ht Hc Hp. split.
  - destruct (commandOfTime_returns t1 s Hc)
      as (c1 & e1 & R1 & N1 & G1 & B1 & S1).
    destruct (commandOfTime_returns t2 s Hc)
      as (c2 & e2 & R2 & N2 & G2 & B2 & S2).
    destruct (commandOfTime_returns t2 (set_commandCursor c1 s))
      as (c12 & e12 & R12 & N12 & G12 & B12 & S12); [simpl; lia|].
    simpl in *.
    unfold bind. rewrite R1, R12, R2.
    assert (c1 <= c2)%nat as Hle.
    { destruct S2 as [Hlast | Hge]; [lia|].
      destruct (Nat.le_gt_cases c1 c2) as [|Hgt]; [assumption|].
      specialize (B1 c2 e2 ltac:(lia) N2). lia. }
    assert (c12 = c2) as ->.
    { destruct (Nat.lt_trichotomy c12 c2) as [Hlt | [Heq | Hgt]];
        [|exact Heq|].
      - specialize (B2 c12 e12 ltac:(lia) N12).
        destruct S12 as [Hlast | Hge]; lia.
      - specialize (B12 c2 e2 ltac:(lia) N2).
        destruct S2 as [Hlast | Hge]; lia. }
    rewrite N2 in N12. injection N12 as ->. reflexivity.
  - destruct (poseOfTime_returns t1 s Hp)
      as (c1 & e1 & R1 & N1 & G1 & B1 & S1).
    destruct (poseOfTime_returns t2 s Hp)
      as (c2 & e2 & R2 & N2 & G2 & B2 & S2).
    destruct (poseOfTime_returns t2 (set_positionCursor c1 s))
      as (c12 & e12 & R12 & N12 & G12 & B12 & S12); [simpl; lia|].
    simpl in *.
    unfold bind. rewrite R1, R12, R2.
    assert (c1 <= c2)%nat as Hle.
    { destruct S2 as [Hlast | Hge]; [lia|].
      destruct (Nat.le_gt_cases c1 c2) as [|Hgt]; [assumption|].
      specialize (B1 c2 e2 ltac:(lia) N2). lia. }
    assert (c12 = c2) as ->.
    { destruct (Nat.lt_trichotomy c12 c2) as [Hlt | [Heq | Hgt]];
        [|exact Heq|].
      - specialize (B2 c12 e12 ltac:(lia) N12).
        destruct S12 as [Hlast | Hge]; lia.
      - specialize (B12 c2 e2 ltac:(lia) N2).
        destruct S2 as [Hlast | Hge]; lia. }
    rewrite N2 in N12. injection N12 as ->. reflexivity.
Qed.

(** X3.  A lookup for a time [t2] made after a lookup for a time [t1] that
    is not earlier returns the entry of the first lookup again and leaves
    the node as the first lookup left it: the cursors do not come back. *)
Theorem earlier_query_changes_nothing (s : Repeat) (t1 t2 : Time) :
  t2 <= t1 ->
  (commandCursor s < List.length (commands s))%nat ->
  (positionCursor s < List.length (positions s))%nat ->
  bind (commandOfTime t1) (fun _ => commandOfTime t2) s = commandOfTime t1 s /\
  bind (poseOfTime t1) (fun _ => poseOfTime t2) s = poseOfTime t1 s.
Proof.
  intros Ht Hc Hp. split.
  - destruct (commandOfTime_returns t1 s Hc)
      as (c1 & e1 & R1 & N1 & G1 & B1 & S1).
    unfold bind. rewrite R1.
    apply commandOfTime_again; [assumption|].
    destruct S1 as [Hlast | Hge]; [left; assumption | right; lia].
  - destruct (poseOfTime_returns t1 s Hp)
      as (c1 & e1 & R1 & N1 & G1 & B1 & S1).
    unfold bind. rewrite R1.
    apply poseOfTime_again; [assumption|].
    destruct S1 as [Hlast | Hge]; [left; assumption | right; lia].
Qed.

(** X4.  When the command stamps ascend and every command before the
    cursor is stamped before [time + lookahead] (as at the first command),
    the lookup returns the earliest command stamped at or after
    [time + lookahead]; when no command is, it returns the last one. *)
Theorem lookup_on_ascending_stamps (time : Time) (s : Repeat) :
  stampsAscend (map twist_stamp (commands s)) ->
  (commandCursor s < List.length (commands s))%nat ->
  (forall i ei, (i < commandCursor s)%nat ->
                nth_error (commands s) i = Some ei ->
                twist_stamp ei < time + lookahead s) ->
  exists c' e,
    commandOfTime time s = Returns (twist e) (set_commandCursor c' s) /\
    nth_error (commands s) c' = Some e /\
    (forall i ei, (i < c')%nat ->
                  nth_error (commands s) i = Some ei ->
                  twist_stamp ei < time + lookahead s) /\
    (time + lookahead s <= twist_stamp e ->
     forall j ej, (c' <= j)%nat ->
                  nth_error (commands s) j = Some ej ->
                  time + lookahead s <= twist_stamp ej) /\
    (twist_stamp e < time + lookahead s ->
     c' = (List.length (commands s) - 1)%nat /\
     forall ej, In ej (commands s) -> twist_stamp ej < time + lookahead s).
Proof.
  intros Hasc Hin Hbefore.
  destruct (commandOfTime_returns time s Hin)
    as (c' & e & Hrun & He & Hrange & Hbelow & Hstop).
  exists c', e.
  assert (forall i ei, (i < c')%nat ->
                       nth_error (commands s) i = Some ei ->
                       twist_stamp ei < time + lookahead s) as Hall.
  { intros i ei Hi Hnth.
    destruct (Nat.lt_ge_cases i (commandCursor s)) as [Hlt | Hge].
    - apply (Hbefore i); assumption.
    - apply (Hbelow i); [lia | assumption]. }
  split; [assumption|]. split; [assumption|]. split; [assumption|]. split.
  - intros Hge j ej Hj Hnth.
    assert (twist_stamp e <= twist_stamp ej); [|lia].
    apply (Hasc c' j); [assumption| |];
      rewrite nth_error_map; [rewrite He | rewrite Hnth]; reflexivity.
  - intros Hlt.
    destruct Hstop as [Hlast | Hge]; [|lia].
    split; [assumption|].
    intros ej Hej. apply In_nth_error in Hej. destruct Hej as (j & Hj).
    assert (j < List.length (commands s))%nat
      by (apply nth_error_Some; congruence).
    destruct (Nat.eq_dec j c') as [->|Hne].
    + rewrite He in Hj. injection Hj as <-. assumption.
    + apply (Hall j); [lia | assumption].
Qed.

(** X5.  A reconfiguration replaces the look-ahead that the next lookup
    uses, and leaves the cursors, the status and the clock alone; of two
    reconfigurations, the one with the longer look-ahead leaves the command
    cursor of the lookup that follows at least as far. *)
Theorem longer_lookahead_reaches_further
        (p1 p2 : RepeatConfig) (time : Time) (s : Repeat) :
  config_lookahead p1 <= config_lookahead p2 ->
  (commandCursor s < List.length (commands s))%nat ->
  exists c1 e1 c2 e2,
    paramCallback p1 s
      = Returns tt (set_controller (controller_updateParams (controller s) p1)
                      (set_lookahead (config_lookahead p1) s)) /\
    exec (bind (paramCallback p1) (fun _ => commandOfTime time)) s
      = exec (paramCallback p1) (set_commandCursor c1 s) /\
    exec (bind (paramCallback p2) (fun _ => commandOfTime time)) s
      = exec (paramCallback p2) (set_commandCursor c2 s) /\
    nth_error (commands s) c1 = Some e1 /\
    nth_error (commands s) c2 = Some e2 /\
    (c1 = (List.length (commands s) - 1)%nat \/
     time + config_lookahead p1 <= twist_stamp e1) /\
    (c2 = (List.length (commands s) - 1)%nat \/
     time + config_lookahead p2 <= twist_stamp e2) /\
    (commandCursor s <= c1)%nat /\ (c1 <= c2)%nat.
Proof.
  intros Hle Hin.
  set (s1 := set_controller (controller_updateParams (controller s) p1)
               (set_lookahead (config_lookahead p1) s)).
  set (s2 := set_controller (controller_updateParams (controller s) p2)
               (set_lookahead (config_lookahead p2) s)).
  destruct (commandOfTime_returns time s1 Hin)
    as (c1 & e1 & R1 & N1 & G1 & B1 & S1).
  destruct (commandOfTime_returns time s2 Hin)
    as (c2 & e2 & R2 & N2 & G2 & B2 & S2).
  simpl in *.
  exists c1, e1, c2, e2.
  split; [reflexivity|].
  split; [unfold exec, bind, paramCallback, modify, gets; simpl;
          fold s1; rewrite R1; reflexivity|].
  split; [unfold exec, bind, paramCallback, modify, gets; simpl;
          fold s2; rewrite R2; reflexivity|].
  repeat (split; [assumption|]).
  split; [lia|].
  destruct S2 as [Hlast | Hge]; [lia|].
  destruct (Nat.le_gt_cases c1 c2) as [|Hgt]; [assumption|].
  specialize (B1 c2 e2 ltac:(lia) N2). lia.
Qed.

End LookupSequences.

(** ** Requests and joystick messages in sequence *)

Section RequestSequences.

Context {ext : Externals}.

(** X6.  A request repeated is honoured once: the second of two requests
    for the same status, whatever the clock reads by then, leaves the node
    as the first one left it. *)
Theorem repeated_request_changes_nothing
        (now now' : Time) (desiredStatus : Status) (s : Repeat) :
  bind (switchToStatus now desiredStatus)
       (fun _ => switchToStatus now' desiredStatus) s
  = switchToStatus now desiredStatus s.
Proof.
  unfold bind. rewrite (switchToStatus_table now). cbv beta iota zeta.
  rewrite (switchToStatus_table now').
  destruct s as [cs ps aps cc pc ac st base started la ctl lidar lock tr].
  destruct st, desiredStatus; reflexivity.
Qed.

(** X7.  A request leaves the node in the status it had or in the status
    asked for.  PLAY is entered from PAUSE only: no request takes the node
    from ERROR to PLAY.  And every request that takes the node out of PLAY
    leaves the idle command as the last command on the command topic. *)
Theorem request_reaches_old_or_desired_status
        (now : Time) (desiredStatus : Status) (s : Repeat) :
  exists s',
    switchToStatus now desiredStatus s = Returns tt s' /\
    (currentStatus s' = currentStatus s \/
     currentStatus s' = desiredStatus) /\
    (currentStatus s' = PLAY -> currentStatus s <> PLAY ->
     currentStatus s = PAUSE) /\
    (currentStatus s = PLAY -> currentStatus s' <> PLAY ->
     publishedCommands (trace s')
       = publishedCommands (trace s) ++ [idleTwistCommand]).
Proof.
  rewrite switchToStatus_table. eexists. split; [reflexivity|].
  destruct s as [cs ps aps cc pc ac st base started la ctl lidar lock tr].
  destruct st, desiredStatus; simpl;
    (split; [auto|]); (split; [congruence|]); intros H1 H2;
    try congruence;
    rewrite publishedCommands_app; reflexivity.
Qed.

(** X8.  Sim time does not jump when playback stops or starts.  After a
    switch from PLAY to PAUSE or ERROR made when the clock reads [now],
    [simTime] returns, at every later reading, what it returned in PLAY at
    [now].  After a switch from PAUSE to PLAY made at [now], [simTime] at
    [now] returns what it returned in PAUSE, and from then on grows with the
    clock. *)
Theorem sim_time_continuous_across_switch
        (now later : Time) (desiredStatus : Status) (s : Repeat) :
  (currentStatus s = PLAY ->
   desiredStatus = PAUSE \/ desiredStatus = ERROR ->
   exists before s',
     simTime now s = Returns before s /\
     switchToStatus now desiredStatus s = Returns tt s' /\
     simTime later s' = Returns before s') /\
  (currentStatus s = PAUSE ->
   exists before s',
     simTime now s = Returns before s /\
     switchToStatus now PLAY s = Returns tt s' /\
     simTime now s' = Returns before s' /\
     simTime later s' = Returns (before + (later - now)) s').
Proof.
  split.
  - intros Hs Hd.
    rewrite !simTime_returns, switchToStatus_table, Hs.
    do 2 eexists. split; [reflexivity|]. split; [reflexivity|].
    rewrite simTime_returns.
    destruct Hd as [-> | ->]; reflexivity.
  - intros Hs.
    rewrite !simTime_returns, switchToStatus_table, Hs.
    do 2 eexists. split; [reflexivity|]. split; [reflexivity|].
    rewrite !simTime_returns. simpl.
    split; f_equal; lia.
Qed.

Lemma joystickCallback_cases (now : Time) (buttons : list Z) (rb x : Z)
      (s : Repeat) :
  nth_error buttons RB = Some rb ->
  nth_error buttons X = Some x ->
  joystickCallback now buttons s =
  match currentStatus s with
  | PLAY => if rb =? 0 then switchToStatus now PAUSE s else Returns tt s
  | PAUSE => if rb =? 1 then switchToStatus now PLAY s else Returns tt s
  | ERROR => if x =? 1 then switchToStatus now PAUSE s else Returns tt s
  end.
Proof.
  intros Hrb Hx. unfold joystickCallback, bind, gets, button, lift, when.
  destruct (currentStatus s); rewrite ?Hrb, ?Hx;
    [destruct (rb =? 0) | destruct (rb =? 1) | destruct (x =? 1)];
    reflexivity.
Qed.

(** X9.  The callback reads one button: RB in PLAY and in PAUSE, X in
    ERROR.  It returns for every message that holds the button it reads, and
    its behaviour is undefined for a message too short to hold it. *)
Theorem joystickCallback_reads_one_button
        (now : Time) (buttons : list Z) (s : Repeat) :
  let read := match currentStatus s with ERROR => X | _ => RB end in
  ((read < List.length buttons)%nat ->
   exists s', joystickCallback now buttons s = Returns tt s') /\
  ((List.length buttons <= read)%nat ->
   joystickCallback now buttons s = Undefined).
Proof.
  intros read. split.
  - intros Hin.
    destruct (nth_error buttons read) as [b|] eqn:Hb.
    2:{ apply nth_error_None in Hb. lia. }
    unfold joystickCallback, bind, gets, button, lift, when.
    unfold read in Hb.
    destruct (currentStatus s) eqn:Hs; rewrite Hb;
      [destruct (b =? 0) | destruct (b =? 1) | destruct (b =? 1)];
      try (eexists; reflexivity);
      rewrite switchToStatus_table; eexists; reflexivity.
  - intros Hout.
    assert (nth_error buttons read = None) as Hb
      by (apply nth_error_None; assumption).
    unfold joystickCallback, bind, gets, button, lift.
    unfold read in Hb.
    destruct (currentStatus s); rewrite Hb; reflexivity.
Qed.

(** X10.  No joystick message puts the node in ERROR, and none takes it
    from ERROR to PLAY: a message in ERROR leaves ERROR exactly when its X
    button is 1, for PAUSE, whatever its RB button.  Resuming after a fault
    takes two messages: one with X at 1, then one with RB at 1, after which
    the node is in PLAY with the base time it had and no command
    published. *)
Theorem joystick_recovery_takes_two_messages
        (now now' : Time) (buttons buttons' : list Z) (rb x : Z)
        (s : Repeat) :
  nth_error buttons RB = Some rb ->
  nth_error buttons X = Some x ->
  exists s',
    joystickCallback now buttons s = Returns tt s' /\
    (currentStatus s' = ERROR <-> currentStatus s = ERROR /\ x <> 1) /\
    (currentStatus s = ERROR -> currentStatus s' <> PLAY) /\
    (currentStatus s = ERROR -> x = 1 ->
     nth_error buttons' RB = Some 1 ->
     exists s'',
       joystickCallback now' buttons' s' = Returns tt s'' /\
       currentStatus s'' = PLAY /\
       baseSimTime s'' = baseSimTime s /\
       timePlaybackStarted s'' = now' /\
       publishedCommands (trace s'') = publishedCommands (trace s)).
Proof.
  intros Hrb Hx.
  rewrite (joystickCallback_cases now buttons rb x s Hrb Hx).
  destruct (currentStatus s) eqn:Hs.
  - destruct (rb =? 0);
      [rewrite switchToStatus_table, Hs|];
      eexists; (split; [reflexivity|]); simpl; rewrite ?Hs;
      (split; [split; [discriminate | intros [H _]; discriminate H]|]);
      (split; intros H; discriminate H).
  - destruct (rb =? 1);
      [rewrite switchToStatus_table, Hs|];
      eexists; (split; [reflexivity|]); simpl; rewrite ?Hs;
      (split; [split; [discriminate | intros [H _]; discriminate H]|]);
      (split; intros H; discriminate H).
  - destruct (x =? 1) eqn:Hx1.
    + apply Z.eqb_eq in Hx1.
      rewrite switchToStatus_table, Hs.
      eexists. split; [reflexivity|]. simpl.
      split; [split; [discriminate | intros [_ H]; congruence]|].
      split; [discriminate|].
      intros _ _ Hrb'.
      unfold joystickCallback, bind, gets, button, lift, when. simpl.
      rewrite Hrb', Z.eqb_refl, switchToStatus_table. simpl.
      eexists. split; [reflexivity|]. simpl.
      repeat split.
      rewrite !publishedCommands_app. simpl. rewrite !app_nil_r.
      reflexivity.
    + apply Z.eqb_neq in Hx1.
      eexists. split; [reflexivity|]. rewrite Hs.
      split; [split; auto|].
      split; [discriminate|].
      intros _ H. congruence.
Qed.

End RequestSequences.

(** ** What every step of the node keeps *)

Section Invariant.

Context {ext : Externals}.

Ltac fields :=
  cbn [commands positions anchorPoints commandCursor positionCursor
       anchorPointCursor currentStatus baseSimTime timePlaybackStarted
       lookahead controller tFromLidarToRobot serviceCallLock trace
       set_commandCursor set_positionCursor set_anchorPointCursor
       set_currentStatus set_baseSimTime set_timePlaybackStarted
       set_lookahead set_controller set_serviceCallLock set_trace
       negb andb Status_eqb].

Ltac step := cbv beta iota; fields.

Lemma advancedFrom_refl (s : Repeat) :
  cursorsOnElements s -> advancedFrom s s.
Proof. intros H. unfold advancedFrom. repeat split; auto; apply H. Qed.

Lemma advancedFrom_trans (s1 s2 s3 : Repeat) :
  advancedFrom s1 s2 -> advancedFrom s2 s3 -> advancedFrom s1 s3.
Proof.
  intros (C1 & P1 & A1 & c1 & p1 & a1 & _) (C2 & P2 & A2 & c2 & p2 & a2 & W).
  unfold advancedFrom. repeat split; try congruence; try lia; apply W.
Qed.

Lemma poseOfTime_result_in_range (time : Time) (s : Repeat) (a : Pose)
      (p : nat) :
  (positionCursor s < List.length (positions s))%nat ->
  poseOfTime time s = Returns a (set_positionCursor p s) ->
  (positionCursor s <= p < List.length (positions s))%nat.
Proof.
  intros Hin H.
  destruct (poseOfTime_returns time s Hin) as (p' & e & R & _ & G & _).
  rewrite R in H. inversion H; subst. assumption.
Qed.

Lemma commandOfTime_result_in_range (time : Time) (s : Repeat) (a : Twist)
      (c : nat) :
  (commandCursor s < List.length (commands s))%nat ->
  commandOfTime time s = Returns a (set_commandCursor c s) ->
  (commandCursor s <= c < List.length (commands s))%nat.
Proof.
  intros Hin H.
  destruct (commandOfTime_returns time s Hin) as (c' & e & R & _ & G & _).
  rewrite R in H. inversion H; subst. assumption.
Qed.

Lemma nextAnchorIsCloser_in_range (here : Pose) (aps : list AnchorPoint)
      (it : nat) :
  nextAnchorIsCloser here aps it = true -> (S it < List.length aps)%nat.
Proof.
  unfold nextAnchorIsCloser.
  destruct (nth_error aps it); [|discriminate].
  destruct (nth_error aps (S it)) eqn:Hn; [|discriminate].
  intros _. apply nth_error_Some. congruence.
Qed.

(** A cycle returns, keeps the status, and moves the command cursor in PLAY
    only. *)
Lemma spin_body_advances (clk : Clock) (s : Repeat) :
  cursorsOnElements s ->
  exists s',
    spin_body clk s = Returns tt s' /\
    advancedFrom s s' /\
    currentStatus s' = currentStatus s /\
    (currentStatus s <> PLAY -> commandCursor s' = commandCursor s) /\
    (currentStatus s <> PLAY ->
     publishedCommands (trace s') = publishedCommands (trace s)).
Proof.
  intros Hwf.
  destruct (spin_body_returns clk s Hwf)
    as (p1 & e1 & c2 & ec & p2 & e2 & R1 & Rc & R2 & Hbody).
  destruct Hwf as (Hc & Hp & Ha).
  pose proof (poseOfTime_result_in_range _ _ _ _ Hp R1) as G1.
  pose proof (commandOfTime_result_in_range _ _ _ _ Hc Rc) as Gc.
  assert (p1 <= p2 < List.length (positions s))%nat as G2.
  { apply (poseOfTime_result_in_range
             (match currentStatus s with
              | PLAY => baseSimTime s + (now_pose clk - timePlaybackStarted s)
              | _ => baseSimTime s
              end) (set_positionCursor p1 s) (pose e2) p2);
      [simpl; lia | exact R2]. }
  eexists. split; [exact Hbody|]. clear Hbody.
  unfold advancedFrom, cursorsOnElements. fields.
  split.
  { repeat (split; [reflexivity|]).
    split; [destruct (Status_eqb (currentStatus s) PLAY); lia|].
    split; [lia|].
    split; [destruct (nextAnchorIsCloser _ _ _); lia|].
    split; [destruct (Status_eqb (currentStatus s) PLAY); lia|].
    split; [lia|].
    destruct (nextAnchorIsCloser _ _ _) eqn:Hcl; [|assumption].
    apply nextAnchorIsCloser_in_range in Hcl. assumption. }
  split; [reflexivity|].
  assert (currentStatus s <> PLAY -> Status_eqb (currentStatus s) PLAY = false)
    as Hno by (destruct (currentStatus s); simpl; congruence).
  split.
  - intros Hne. rewrite (Hno Hne). reflexivity.
  - intros Hne. rewrite (Hno Hne).
    rewrite !publishedCommands_app. unfold switchNotice.
    destruct (nextAnchorIsCloser _ _ _);
      [destruct (nth_error (anchorPoints s) (S (anchorPointCursor s)))|];
      simpl; rewrite ?app_nil_r; reflexivity.
Qed.

(** A request keeps everything but the status, the clock and the trace. *)
Lemma switchToStatus_keeps (now : Time) (desiredStatus : Status)
      (s : Repeat) :
  exists s',
    switchToStatus now desiredStatus s = Returns tt s' /\
    commands s' = commands s /\
    positions s' = positions s /\
    anchorPoints s' = anchorPoints s /\
    commandCursor s' = commandCursor s /\
    positionCursor s' = positionCursor s /\
    anchorPointCursor s' = anchorPointCursor s /\
    serviceCallLock s' = serviceCallLock s.
Proof.
  rewrite switchToStatus_table. eexists. split; [reflexivity|].
  destruct s as [cs ps aps cc pc ac st base started la ctl lidar lock tr].
  destruct st, desiredStatus; simpl; repeat split; reflexivity.
Qed.

Lemma switchToStatus_advances (now : Time) (desiredStatus : Status)
      (s : Repeat) :
  cursorsOnElements s ->
  exists s',
    switchToStatus now desiredStatus s = Returns tt s' /\ advancedFrom s s'.
Proof.
  intros (Hc & Hp & Ha).
  destruct (switchToStatus_keeps now desiredStatus s)
    as (s' & Hrun & C & P & A & c & p & a & _).
  exists s'. split; [assumption|].
  unfold advancedFrom, cursorsOnElements.
  rewrite C, P, A, c, p, a. repeat split; auto.
Qed.

Lemma joystickCallback_advances (now : Time) (buttons : list Z)
      (s : Repeat) :
  cursorsOnElements s ->
  buttonsInRange buttons ->
  exists s',
    joystickCallback now buttons s = Returns tt s' /\ advancedFrom s s'.
Proof.
  intros Hwf (Hrb & Hx).
  destruct (nth_error buttons RB) as [rb|] eqn:Erb.
  2:{ apply nth_error_None in Erb. lia. }
  destruct (nth_error buttons X) as [x|] eqn:Ex.
  2:{ apply nth_error_None in Ex. lia. }
  rewrite (joystickCallback_cases now buttons rb x s Erb Ex).
  destruct (currentStatus s);
    [destruct (rb =? 0) | destruct (rb =? 1) | destruct (x =? 1)];
    try (apply switchToStatus_advances; assumption);
    (exists s; split; [reflexivity | apply advancedFrom_refl; assumption]).
Qed.

(** A scan correction returns; it moves the pose cursor only, and hands
    the mutex back as it found it.  When the mutex is free and the service
    fails, the node ends in ERROR, with the idle command published unless it
    was in ERROR already. *)
Lemma updateError_advances (now now_fail : Time)
      (icpService : Cloud -> Cloud -> option Transform)
      (reading : Cloud) (s : Repeat) :
  cursorsOnElements s ->
  exists s',
    updateError now now_fail icpService reading s = Returns tt s' /\
    advancedFrom s s' /\
    commandCursor s' = commandCursor s /\
    anchorPointCursor s' = anchorPointCursor s /\
    serviceCallLock s' = serviceCallLock s /\
    (serviceCallLock s = false ->
     (forall readings reference, icpService readings reference = None) ->
     currentStatus s' = ERROR /\
     baseSimTime s'
       = match currentStatus s with
         | ERROR => baseSimTime s
         | _ => baseSimTime s + (now_fail - timePlaybackStarted s)
         end /\
     publishedCommands (trace s')
       = publishedCommands (trace s)
         ++ match currentStatus s with
            | ERROR => []
            | _ => [idleTwistCommand]
            end).
Proof.
  intros (Hc & Hp & Ha).
  set (t := match currentStatus s with
            | PLAY => baseSimTime s + (now - timePlaybackStarted s)
            | _ => baseSimTime s
            end).
  destruct (poseOfTime_returns t s Hp) as (p1 & e1 & R1 & _ & G1 & _).
  destruct (nth_error (anchorPoints s) (anchorPointCursor s)) as [ap|] eqn:Hap.
  2:{ apply nth_error_None in Hap. lia. }
  set (transformed :=
         transformPointCloud
           (composeTransform (transFromPoseToPose (pose e1) (getPosition ap))
                             (tFromLidarToRobot s)) reading).
  assert (updateError now now_fail icpService reading s =
            (if negb (serviceCallLock s)
             then
               bind (modify (set_serviceCallLock true)) (fun _ =>
               bind (emit (ServiceCalled transformed (getCloud ap))) (fun _ =>
               bind match icpService transformed (getCloud ap) with
                    | Some transform =>
                        let rawError :=
                          controlErrorOfTransformation transform in
                        bind (gets controller) (fun ctl =>
                        bind (emit (UpdateErrorCalled rawError)) (fun _ =>
                        bind (modify (set_controller
                                        (controller_updateError ctl rawError)))
                             (fun _ => emit (ErrorReported rawError))))
                    | None =>
                        bind (emit (Logged Warn
                           "There was a problem with the point matching service."
                           None))
                             (fun _ => switchToStatus now_fail ERROR)
                    end (fun _ => modify (set_serviceCallLock false))))
             else
               emit (Logged Info "ICP service was busy, dropped a cloud."
                            None))
              (set_positionCursor p1 s)) as Hrun.
  { unfold updateError. unfold bind at 1.
    rewrite simTime_returns. fold t. step.
    unfold bind at 1. rewrite R1. step.
    unfold bind at 1. unfold gets at 1. step.
    unfold bind at 1. unfold derefAnchorPoint, lift, deref. step.
    rewrite Hap. step.
    unfold bind at 1. unfold gets at 1. step.
    unfold bind at 1. unfold gets at 1. step.
    reflexivity. }
  rewrite Hrun. clear Hrun.
  unfold advancedFrom, cursorsOnElements.
  destruct (serviceCallLock s) eqn:Hlock; step.
  - eexists. split; [reflexivity|]. fields.
    split; [repeat split; reflexivity || lia|].
    do 3 (split; [reflexivity || congruence|]).
    intros H. discriminate H.
  - destruct (icpService transformed (getCloud ap)) as [transform|] eqn:Hicp.
    + eexists. split; [reflexivity|]. fields.
      split; [repeat split; reflexivity || lia|].
      do 3 (split; [reflexivity|]).
      intros _ Hnone. rewrite Hnone in Hicp. discriminate Hicp.
    + unfold bind, emit, modify. step.
      rewrite switchToStatus_table. step.
      destruct (currentStatus s) eqn:Hs;
        (eexists; split; [reflexivity|]); fields; rewrite ?Hs;
        (split; [repeat split; reflexivity || lia|]);
        do 3 (split; [reflexivity|]);
        intros _ _; (split; [reflexivity|]); (split; [reflexivity|]);
        rewrite !publishedCommands_app; simpl; rewrite ?app_nil_r;
        reflexivity.
Qed.

Lemma dispatch_advances (cb : Callback) (s : Repeat) :
  cursorsOnElements s ->
  runsOnMainThread cb ->
  exists s', dispatch cb s = Returns tt s' /\ advancedFrom s s'.
Proof.
  intros Hwf Hcb. destruct cb as [now buttons | msg | params].
  - apply joystickCallback_advances; assumption.
  - destruct Hcb.
  - eexists. split; [reflexivity|].
    destruct Hwf as (Hc & Hp & Ha).
    unfold advancedFrom, cursorsOnElements. simpl.
    repeat split; auto.
Qed.

Lemma spinOnce_advances (cbs : list Callback) :
  forall s,
    cursorsOnElements s ->
    Forall runsOnMainThread cbs ->
    exists s', spinOnce cbs s = Returns tt s' /\ advancedFrom s s'.
Proof.
  induction cbs as [|cb rest IH]; intros s Hwf Hall.
  - exists s. split; [reflexivity | apply advancedFrom_refl; assumption].
  - inversion Hall as [|? ? Hcb Hrest]; subst.
    destruct (dispatch_advances cb s Hwf Hcb) as (s1 & Hrun1 & Hadv1).
    destruct (IH s1) as (s2 & Hrun2 & Hadv2);
      [apply Hadv1 | assumption |].
    exists s2. split.
    + cbn [spinOnce]. unfold bind. rewrite Hrun1. exact Hrun2.
    + eapply advancedFrom_trans; eassumption.
Qed.

(** X11.  From a node whose cursors are on elements, a cycle, a scan
    correction, a joystick message with the buttons in range and a
    reconfiguration all return, keep the three sequences, leave every
    cursor on an element and move no cursor backward; a scan correction
    moves the pose cursor only, a joystick message and a reconfiguration
    move none. *)
Theorem steps_keep_cursors_on_elements
        (clk : Clock) (now now_fail : Time)
        (icpService : Cloud -> Cloud -> option Transform) (reading : Cloud)
        (buttons : list Z) (params : RepeatConfig) (s : Repeat) :
  cursorsOnElements s ->
  buttonsInRange buttons ->
  (exists s', spin_body clk s = Returns tt s' /\ advancedFrom s s') /\
  (exists s',
     updateError now now_fail icpService reading s = Returns tt s' /\
     advancedFrom s s' /\
     commandCursor s' = commandCursor s /\
     anchorPointCursor s' = anchorPointCursor s) /\
  (exists s',
     joystickCallback now buttons s = Returns tt s' /\
     advancedFrom s s' /\
     commandCursor s' = commandCursor s /\
     positionCursor s' = positionCursor s /\
     anchorPointCursor s' = anchorPointCursor s) /\
  (exists s',
     paramCallback params s = Returns tt s' /\
     advancedFrom s s' /\
     commandCursor s' = commandCursor s /\
     positionCursor s' = positionCursor s /\
     anchorPointCursor s' = anchorPointCursor s).
Proof.
  intros Hwf Hbuttons. split; [|split; [|split]].
  - destruct (spin_body_advances clk s Hwf) as (s' & Hrun & Hadv & _).
    exists s'. split; assumption.
  - destruct (updateError_advances now now_fail icpService reading s Hwf)
      as (s' & Hrun & Hadv & Hc & Ha & _).
    exists s'. repeat (split; [assumption|]). assumption.
  - destruct Hbuttons as (Hrb & Hx).
    destruct (nth_error buttons RB) as [rb|] eqn:Erb.
    2:{ apply nth_error_None in Erb. lia. }
    destruct (nth_error buttons X) as [x|] eqn:Ex.
    2:{ apply nth_error_None in Ex. lia. }
    rewrite (joystickCallback_cases now buttons rb x s Erb Ex).
    assert (forall d, exists s',
              switchToStatus now d s = Returns tt s' /\
              advancedFrom s s' /\
              commandCursor s' = commandCursor s /\
              positionCursor s' = positionCursor s /\
              anchorPointCursor s' = anchorPointCursor s) as Hswitch.
    { intros d.
      destruct (switchToStatus_keeps now d s)
        as (s' & Hrun & C & P & A & c & p & a & _).
      exists s'. split; [assumption|].
      split; [|auto].
      destruct Hwf as (Hc & Hp & Ha).
      unfold advancedFrom, cursorsOnElements.
      rewrite C, P, A, c, p, a. repeat split; auto. }
    destruct (currentStatus s);
      [destruct (rb =? 0) | destruct (rb =? 1) | destruct (x =? 1)];
      try apply Hswitch;
      (exists s; split; [reflexivity|];
       split; [apply advancedFrom_refl; assumption | auto]).
  - eexists. split; [reflexivity|].
    destruct Hwf as (Hc & Hp & Ha).
    unfold advancedFrom, cursorsOnElements. simpl.
    repeat split; auto.
Qed.

(** X12.  With the cursors on elements, and while [ros::spinOnce()]
    delivers joystick messages with their buttons in range and
    reconfigurations only (no scan, so no correction thread is started), the
    main loop never runs into undefined behaviour: after the cycles given
    it is still running, or it has left.  When it has left, it has run
    fewer cycles than given, the node holds the same sequences with no
    cursor moved backward and every cursor on an element, and at the check
    that ended it [ros::ok()] was false or the command cursor was on the
    last command. *)
Theorem loop_stays_defined (cycles : list Cycle) :
  forall s,
    cursorsOnElements s ->
    Forall (fun cy => Forall runsOnMainThread (pending cy)) cycles ->
    spin cycles s = Unfinished \/
    exists n s' cy,
      spin cycles s = Returns n s' /\
      advancedFrom s s' /\
      nth_error cycles n = Some cy /\
      (ros_ok cy = false \/
       commandCursor s' = (List.length (commands s') - 1)%nat).
Proof.
  induction cycles as [|cy rest IH]; intros s Hwf Hall.
  - left. reflexivity.
  - inversion Hall as [|? ? Hcy Hrest]; subst.
    cbn [spin]. unfold bind. rewrite spin_condition_returns.
    destruct (ros_ok cy) eqn:Hok.
    2:{ right. exists O, s, cy. split; [reflexivity|].
        split; [apply advancedFrom_refl; assumption|].
        split; [reflexivity | left; assumption]. }
    destruct (commands s) as [|c cs] eqn:Hcs.
    { destruct Hwf as (Hc & _). rewrite Hcs in Hc. simpl in Hc. lia. }
    rewrite <- Hcs.
    destruct (commandCursor s <? List.length (commands s) - 1)%nat eqn:Hlt.
    2:{ apply Nat.ltb_ge in Hlt.
        right. exists O, s, cy. split; [reflexivity|].
        split; [apply advancedFrom_refl; assumption|].
        split; [reflexivity|]. right.
        destruct Hwf as (Hc & _). lia. }
    destruct (spin_body_advances (clock cy) s Hwf)
      as (s1 & Hrun1 & Hadv1 & _).
    rewrite Hrun1.
    destruct (spinOnce_advances (pending cy) s1) as (s2 & Hrun2 & Hadv2);
      [apply Hadv1 | assumption |].
    rewrite Hrun2.
    destruct (IH s2) as [Hrunning | (n & s' & cy' & Hrun & Hadv & Hnth & Hend)];
      [apply Hadv2 | assumption | |].
    + left. rewrite Hrunning. reflexivity.
    + right. exists (S n), s', cy'. rewrite Hrun.
      split; [reflexivity|].
      split; [|split; assumption].
      eapply advancedFrom_trans; [|eassumption].
      eapply advancedFrom_trans; eassumption.
Qed.

End Invariant.

(** ** How the main loop ends, and how it does not *)

Section LoopEnds.

Context {ext : Externals}.

Lemma spin_condition_loaded (s : Repeat) :
  (commandCursor s < List.length (commands s))%nat ->
  spin_condition true s =
  Returns (commandCursor s <? List.length (commands s) - 1)%nat s.
Proof.
  intros Hc. rewrite spin_condition_returns.
  destruct (commands s); [simpl in Hc; lia | reflexivity].
Qed.

(** X13.  In PLAY, once the sim time at the top of a cycle plus the
    look-ahead is past the stamp of every command, that cycle publishes the
    corrected last command and puts the command cursor on the last command,
    and (no callback pending) the next check of the loop condition ends the
    loop: one cycle has run. *)
Theorem exhausted_trajectory_ends_loop
        (cy cy' : Cycle) (rest : list Cycle) (s : Repeat) :
  cursorsOnElements s ->
  currentStatus s = PLAY ->
  ros_ok cy = true ->
  pending cy = [] ->
  (commandCursor s < List.length (commands s) - 1)%nat ->
  (forall e, In e (commands s) ->
             twist_stamp e
             < baseSimTime s + (now_spin (clock cy) - timePlaybackStarted s)
               + lookahead s) ->
  exists s' final,
    spin (cy :: cy' :: rest) s = Returns 1%nat s' /\
    commandCursor s' = (List.length (commands s) - 1)%nat /\
    nth_error (commands s) (List.length (commands s) - 1) = Some final /\
    publishedCommands (trace s')
      = publishedCommands (trace s)
        ++ [fst (correctCommand (controller s) (twist final))].
Proof.
  intros Hwf Hplay Hok Hpending Hbefore Hpast.
  destruct (spin_body_returns (clock cy) s Hwf)
    as (p1 & e1 & c2 & ec & p2 & e2 & _ & Rc & _ & Hbody).
  rewrite Hplay in Rc, Hbody. simpl Status_eqb in Hbody. cbv iota in Hbody.
  destruct Hwf as (Hc & Hp & Ha).
  destruct (commandOfTime_returns
              (baseSimTime s
               + (now_spin (clock cy) - timePlaybackStarted s)) s Hc)
    as (c' & e' & R' & N' & G' & _ & S').
  rewrite Rc in R'. inversion R' as [[Htwist Hcursor]]. subst c'.
  assert (c2 = (List.length (commands s) - 1)%nat) as Hlast.
  { destruct S' as [Hlast | Hge]; [assumption|].
    specialize (Hpast e' (nth_error_In _ _ N')). lia. }
  eexists. exists e'.
  split.
  { cbn [spin]. unfold bind.
    rewrite Hok, (spin_condition_loaded s Hc).
    replace (commandCursor s <? List.length (commands s) - 1)%nat with true
      by (symmetry; apply Nat.ltb_lt; assumption).
    rewrite Hbody, Hpending. cbn [spinOnce]. unfold ret.
    destruct (ros_ok cy'); [|reflexivity].
    rewrite spin_condition_loaded by (simpl; lia).
    cbn [commands commandCursor set_trace set_positionCursor set_controller
         set_commandCursor set_anchorPointCursor].
    rewrite Hlast, Nat.ltb_irrefl. reflexivity. }
  cbn [commands commandCursor trace set_trace set_positionCursor
       set_controller set_commandCursor set_anchorPointCursor].
  split; [assumption|].
  split; [rewrite <- Hlast; assumption|].
  rewrite !publishedCommands_app. unfold switchNotice.
  rewrite Htwist.
  destruct (nextAnchorIsCloser _ _ _);
    [destruct (nth_error (anchorPoints s) (S (anchorPointCursor s)))|];
    simpl; rewrite ?app_nil_r; reflexivity.
Qed.

(** X14.  Outside PLAY the loop does not end by itself: with the command
    cursor before the last command, [ros::ok()] true and no callback
    delivered, it is still running after any number of cycles. *)
Theorem paused_loop_keeps_running (cycles : list Cycle) :
  forall s,
    cursorsOnElements s ->
    currentStatus s <> PLAY ->
    (commandCursor s < List.length (commands s) - 1)%nat ->
    Forall (fun cy => ros_ok cy = true /\ pending cy = []) cycles ->
    spin cycles s = Unfinished.
Proof.
  induction cycles as [|cy rest IH]; intros s Hwf Hst Hbefore Hall.
  - reflexivity.
  - inversion Hall as [|? ? (Hok & Hpending) Hrest]; subst.
    cbn [spin]. unfold bind.
    rewrite Hok, (spin_condition_loaded s (proj1 Hwf)).
    replace (commandCursor s <? List.length (commands s) - 1)%nat with true
      by (symmetry; apply Nat.ltb_lt; assumption).
    destruct (spin_body_advances (clock cy) s Hwf)
      as (s1 & Hrun1 & Hadv1 & Hst1 & Hcur1 & _).
    rewrite Hrun1, Hpending. cbn [spinOnce]. unfold ret.
    rewrite (IH s1); [reflexivity | apply Hadv1 | congruence | | assumption].
    destruct Hadv1 as (C & _). rewrite C, (Hcur1 Hst). assumption.
Qed.

(** The node after scans that all fail, from a free mutex. *)
Lemma failedScans_returns (scans : list (Time * Time * Cloud)) :
  forall s,
    cursorsOnElements s ->
    serviceCallLock s = false ->
    exists s',
      failedScans scans s = Returns tt s' /\
      serviceCallLock s' = false /\
      currentStatus s'
        = match scans with [] => currentStatus s | _ :: _ => ERROR end /\
      publishedCommands (trace s')
        = publishedCommands (trace s)
          ++ match scans, currentStatus s with
             | [], _ | _, ERROR => []
             | _, _ => [idleTwistCommand]
             end.
Proof.
  induction scans as [|[[now now_fail] reading] rest IH]; intros s Hwf Hlock.
  - exists s. simpl. rewrite app_nil_r. auto.
  - destruct (updateError_advances now now_fail (fun _ _ => None) reading
                                   s Hwf)
      as (s1 & Hrun1 & Hadv1 & _ & _ & Hlock1 & Hfail).
    destruct (Hfail Hlock (fun _ _ => eq_refl)) as (Hst1 & _ & Hpub1).
    destruct (IH s1) as (s' & Hrun & Hlock' & Hst' & Hpub');
      [apply Hadv1 | congruence |].
    exists s'. split.
    { cbn [failedScans]. unfold bind. rewrite Hrun1. exact Hrun. }
    split; [assumption|]. split.
    { rewrite Hst'. destruct rest; [assumption | reflexivity]. }
    rewrite Hpub', Hpub1, Hst1.
    assert (match rest with [] | _ => @nil Twist end = []) as ->
      by (destruct rest; reflexivity).
    rewrite app_nil_r. reflexivity.
Qed.

(** X15.  However many scans fail in a row, the idle command is published
    once: after one or more failed corrections started with the mutex free
    the node is in ERROR, the mutex is free, and the command topic has
    received the idle command exactly once, or nothing if the node was in
    ERROR before. *)
Theorem failed_scans_publish_idle_once
        (scan : Time * Time * Cloud) (more : list (Time * Time * Cloud))
        (s : Repeat) :
  cursorsOnElements s ->
  serviceCallLock s = false ->
  exists s',
    failedScans (scan :: more) s = Returns tt s' /\
    currentStatus s' = ERROR /\
    serviceCallLock s' = false /\
    publishedCommands (trace s')
      = publishedCommands (trace s)
        ++ match currentStatus s with
           | ERROR => []
           | _ => [idleTwistCommand]
           end.
Proof.
  intros Hwf Hlock.
  destruct (failedScans_returns (scan :: more) s Hwf Hlock)
    as (s' & Hrun & Hlock' & Hst & Hpub).
  exists s'. repeat (split; [assumption|]).
  rewrite Hpub. destruct (currentStatus s); reflexivity.
Qed.

(** X16.  A node whose pose sequence is empty, or whose anchor sequence
    is empty, has no defined cycle and no defined scan correction: both
    dereference the end of the empty sequence. *)
Theorem unloaded_poses_or_anchors_are_undefined
        (clk : Clock) (now now_fail : Time)
        (icpService : Cloud -> Cloud -> option Transform) (reading : Cloud)
        (s : Repeat) :
  positions s = [] \/
  ((positionCursor s < List.length (positions s))%nat /\
   anchorPoints s = []) ->
  spin_body clk s = Undefined /\
  updateError now now_fail icpService reading s = Undefined.
Proof.
  intros [Hpos | (Hp & Haps)].
  - assert (forall t, poseOfTime t s = Undefined) as Hpose.
    { intros t. unfold poseOfTime, bind, gets.
      rewrite poseOfTime_loop_walk, Hpos. simpl.
      destruct (positionCursor s); reflexivity. }
    split.
    + unfold spin_body, bind. rewrite simTime_returns, Hpose. reflexivity.
    + unfold updateError, bind. rewrite simTime_returns, Hpose. reflexivity.
  - assert (forall t, exists a p,
              poseOfTime t s = Returns a (set_positionCursor p s)) as Hpose.
    { intros t.
      destruct (poseOfTime_returns t s Hp) as (p & e & R & _).
      exists (pose e), p. exact R. }
    split.
    + unfold spin_body, bind. rewrite simTime_returns. cbv beta iota.
      match goal with
      | |- context [poseOfTime ?t s] => destruct (Hpose t) as (a & p & R)
      end.
      rewrite R. unfold gets, derefAnchorPoint, lift, deref. simpl.
      rewrite Haps. destruct (anchorPointCursor s); reflexivity.
    + unfold updateError, bind. rewrite simTime_returns. cbv beta iota.
      match goal with
      | |- context [poseOfTime ?t s] => destruct (Hpose t) as (a & p & R)
      end.
      rewrite R. unfold gets, derefAnchorPoint, lift, deref. simpl.
      rewrite Haps. destruct (anchorPointCursor s); reflexivity.
Qed.

(** X1.  The constructor starts the node in PAUSE with the clock at zero
    and the mutex free.  Each of the three sequences holds one entry per
    line of its file, in the order of the file (the entry of a line is what
    the parser makes of that line), and is empty when the file cannot be
    opened; for each file the error is logged exactly when the file cannot
    be opened.  So the three cursors of the new node are on elements
    exactly when each of the three files opens and has a line. *)
Theorem constructed_node
        (chdir : Z) (speeds positionsFile anchors : option (list string))
        (ctl : CommandRepeater) (ahead : Duration) (lidar : Transform) :
  let s := Repeat_new chdir speeds positionsFile anchors ctl ahead lidar in
  let hasLine (file : option (list string)) :=
    exists line lines, file = Some (line :: lines) in
  let lineCount (file : option (list string)) :=
    match file with Some lines => List.length lines | None => O end in
  currentStatus s = PAUSE /\
  baseSimTime s = 0 /\
  serviceCallLock s = false /\
  (List.length (commands s) = lineCount speeds /\
   List.length (positions s) = lineCount positionsFile /\
   List.length (anchorPoints s) = lineCount anchors) /\
  (forall lines i line,
     speeds = Some lines -> nth_error lines i = Some line ->
     nth_error (commands s) i
       = Some {| twist_stamp := fst (stampedTwistOfString line);
                 twist := snd (stampedTwistOfString line) |}) /\
  (forall lines i line,
     positionsFile = Some lines -> nth_error lines i = Some line ->
     nth_error (positions s) i
       = Some {| pose_stamp := fst (stampedPoseOfString line);
                 pose := snd (stampedPoseOfString line) |}) /\
  (forall lines i line,
     anchors = Some lines -> nth_error lines i = Some line ->
     nth_error (anchorPoints s) i
       = Some {| name := fst (fst (anchorPointOfString line));
                 getPosition := snd (fst (anchorPointOfString line));
                 getCloud := snd (anchorPointOfString line) |}) /\
  ((speeds = None -> commands s = []) /\
   (positionsFile = None -> positions s = []) /\
   (anchors = None -> anchorPoints s = [])) /\
  ((speeds = None <->
    In (Logged Error "Could not open command file: speeds.sl" None)
       (trace s)) /\
   (positionsFile = None <->
    In (Logged Error "Could not open position file: positions.pl" None)
       (trace s)) /\
   (anchors = None <->
    In (Logged Error "Could not open anchor points file: anchorPoints.apd"
               None) (trace s))) /\
  (cursorsOnElements s <->
   hasLine speeds /\ hasLine positionsFile /\ hasLine anchors).
Proof.
  intros s hasLine lineCount.
  unfold s, hasLine, lineCount, cursorsOnElements. simpl.
  split; [reflexivity|]. split; [reflexivity|]. split; [reflexivity|].
  split.
  { repeat split;
      [destruct speeds | destruct positionsFile | destruct anchors];
      simpl; try apply length_map; reflexivity. }
  split.
  { intros lines i line -> Hnth. simpl.
    rewrite nth_error_map, Hnth. reflexivity. }
  split.
  { intros lines i line -> Hnth. simpl.
    rewrite nth_error_map, Hnth. reflexivity. }
  split.
  { intros lines i line -> Hnth. simpl.
    rewrite nth_error_map, Hnth. reflexivity. }
  split.
  { repeat split; intros ->; reflexivity. }
  split.
  { repeat split;
      destruct (chdir =? 0), speeds, positionsFile, anchors; simpl;
      try (intros H; discriminate H);
      try (intros _; tauto);
      intros H;
      repeat (destruct H as [H | H]; [discriminate H|]);
      try contradiction. }
  split.
  - intros (Hc & Hp & Ha).
    destruct speeds as [[|l1 ls1]|]; simpl in Hc; try lia.
    destruct positionsFile as [[|l2 ls2]|]; simpl in Hp; try lia.
    destruct anchors as [[|l3 ls3]|]; simpl in Ha; try lia.
    repeat split; do 2 eexists; reflexivity.
  - intros ((l1 & ls1 & ->) & (l2 & ls2 & ->) & (l3 & ls3 & ->)).
    simpl. lia.
Qed.

End LoopEnds.

(** ** The further properties at the concrete node *)

Lemma node_stamps_ascend (st : Status) :
  stampsAscend (map twist_stamp (commands (node st))).
Proof.
  intros i j a b Hij Hi Hj. simpl in Hi, Hj.
  destruct i as [|[|[|i]]]; destruct j as [|[|[|j]]]; simpl in Hi, Hj;
    try lia;
    try (destruct i; discriminate Hi);
    try (destruct j; discriminate Hj);
    inversion Hi; inversion Hj; subst; lia.
Qed.

Lemma later_query_absorbs_earlier_witness :
  0 <= 1500000000 /\
  bind (commandOfTime 0) (fun _ => commandOfTime 1500000000) (node PLAY)
    = commandOfTime 1500000000 (node PLAY).
Proof.
  assert (0 <= 1500000000) as Ht by lia.
  split; [exact Ht|].
  apply (later_query_absorbs_earlier (node PLAY) 0 1500000000 Ht);
    simpl; lia.
Defined.

Lemma earlier_query_changes_nothing_witness :
  0 <= 1500000000 /\
  bind (commandOfTime 1500000000) (fun _ => commandOfTime 0) (node PLAY)
    = commandOfTime 1500000000 (node PLAY).
Proof.
  assert (0 <= 1500000000) as Ht by lia.
  split; [exact Ht|].
  apply (earlier_query_changes_nothing (node PLAY) 1500000000 0 Ht);
    simpl; lia.
Defined.

Lemma lookup_on_ascending_stamps_witness :
  stampsAscend (map twist_stamp (commands (node PLAY))) /\
  exists c' e,
    commandOfTime 400000000 (node PLAY)
      = Returns (twist e) (set_commandCursor c' (node PLAY)) /\
    nth_error (commands (node PLAY)) c' = Some e.
Proof.
  split; [apply node_stamps_ascend|].
  destruct (lookup_on_ascending_stamps 400000000 (node PLAY))
    as (c' & e & Hrun & He & _).
  - apply node_stamps_ascend.
  - simpl. lia.
  - simpl. intros i ei Hi. lia.
  - exists c', e. split; assumption.
Defined.

Lemma longer_lookahead_reaches_further_witness :
  0 <= 1000000000 /\
  exists c1 c2 : nat,
    option_map commandCursor
      (exec (bind (paramCallback 0) (fun _ => commandOfTime 400000000))
            (node PLAY)) = Some c1 /\
    option_map commandCursor
      (exec (bind (paramCallback 1000000000)
                  (fun _ => commandOfTime 400000000))
            (node PLAY)) = Some c2 /\
    (c1 <= c2)%nat.
Proof.
  assert (0 <= 1000000000) as Hle by lia.
  split; [exact Hle|].
  destruct (@longer_lookahead_reaches_further Demo.ext
              0 1000000000 400000000 (node PLAY) Hle)
    as (c1 & e1 & c2 & e2 & _ & H1 & H2 & _ & _ & _ & _ & _ & H12).
  - simpl. lia.
  - exists c1, c2. rewrite H1, H2. repeat split. exact H12.
Defined.

Lemma sim_time_continuous_across_switch_witness :
  currentStatus (node PLAY) = PLAY /\
  exists before s',
    simTime 5 (node PLAY) = Returns before (node PLAY) /\
    switchToStatus 5 PAUSE (node PLAY) = Returns tt s' /\
    simTime 9 s' = Returns before s'.
Proof.
  split; [reflexivity|].
  destruct (sim_time_continuous_across_switch 5 9 PAUSE (node PLAY))
    as (Hstop & _).
  exact (Hstop eq_refl (or_introl eq_refl)).
Defined.

Lemma joystickCallback_reads_one_button_witness :
  (RB < List.length (buttonsWith 1 0))%nat /\
  (List.length [0; 0; 0] <= RB)%nat /\
  (exists s', joystickCallback 7 (buttonsWith 1 0) (node PLAY)
              = Returns tt s') /\
  joystickCallback 7 [0; 0; 0] (node PLAY) = Undefined.
Proof.
  assert (RB < List.length (buttonsWith 1 0))%nat as Hin by (simpl; lia).
  assert (List.length [0; 0; 0] <= RB)%nat as Hout by (simpl; lia).
  split; [exact Hin|]. split; [exact Hout|].
  split.
  - exact (proj1 (joystickCallback_reads_one_button
                    7 (buttonsWith 1 0) (node PLAY)) Hin).
  - exact (proj2 (joystickCallback_reads_one_button
                    7 [0; 0; 0] (node PLAY)) Hout).
Defined.

Lemma joystick_recovery_takes_two_messages_witness :
  nth_error (buttonsWith 1 1) RB = Some 1 /\
  nth_error (buttonsWith 1 1) X = Some 1 /\
  exists s' s'',
    joystickCallback 7 (buttonsWith 1 1) (node ERROR) = Returns tt s' /\
    currentStatus s' <> PLAY /\
    joystickCallback 8 (buttonsWith 1 0) s' = Returns tt s'' /\
    currentStatus s'' = PLAY.
Proof.
  split; [reflexivity|]. split; [reflexivity|].
  destruct (joystick_recovery_takes_two_messages
              7 8 (buttonsWith 1 1) (buttonsWith 1 0) 1 1 (node ERROR)
              eq_refl eq_refl)
    as (s' & Hrun & _ & Hnot & Htwo).
  destruct (Htwo eq_refl eq_refl eq_refl) as (s'' & Hrun' & Hplay & _).
  exists s', s''. repeat split; auto.
Defined.

Lemma steps_keep_cursors_on_elements_witness :
  cursorsOnElements (node PLAY) /\
  buttonsInRange (buttonsWith 0 0) /\
  exists s',
    spin_body (steady 2000000000) (node PLAY) = Returns tt s' /\
    advancedFrom (node PLAY) s'.
Proof.
  assert (cursorsOnElements (node PLAY)) as Hwf
    by (unfold cursorsOnElements; simpl; lia).
  assert (buttonsInRange (buttonsWith 0 0)) as Hb
    by (unfold buttonsInRange; simpl; lia).
  split; [exact Hwf|]. split; [exact Hb|].
  exact (proj1 (@steps_keep_cursors_on_elements Demo.ext
                  (steady 2000000000) 5 6 (fun _ _ => None) 7
                  (buttonsWith 0 0) 0 (node PLAY) Hwf Hb)).
Defined.

Lemma loop_stays_defined_witness :
  cursorsOnElements (node PLAY) /\
  Forall (fun cy => Forall runsOnMainThread (pending cy))
         [busyCycle 1000000000; oneCycle 3000000000; oneCycle 3010000000] /\
  spin [busyCycle 1000000000; oneCycle 3000000000; oneCycle 3010000000]
       (node PLAY) <> Undefined.
Proof.
  assert (cursorsOnElements (node PLAY)) as Hwf
    by (unfold cursorsOnElements; simpl; lia).
  assert (Forall (fun cy => Forall runsOnMainThread (pending cy))
                 [busyCycle 1000000000; oneCycle 3000000000;
                  oneCycle 3010000000]) as Hall.
  { repeat (apply Forall_cons || apply Forall_nil);
      simpl; unfold buttonsInRange; simpl; auto; lia. }
  split; [exact Hwf|]. split; [exact Hall|].
  destruct (loop_stays_defined
              [busyCycle 1000000000; oneCycle 3000000000;
               oneCycle 3010000000] (node PLAY) Hwf Hall)
    as [Hrunning | (n & s' & cy & Hrun & _)].
  - rewrite Hrunning. discriminate.
  - rewrite Hrun. discriminate.
Defined.

Lemma exhausted_trajectory_ends_loop_witness :
  cursorsOnElements (node PLAY) /\
  exists s',
    spin [oneCycle 3000000000; oneCycle 3010000000] (node PLAY)
      = Returns 1%nat s' /\
    commandCursor s' = 2%nat.
Proof.
  assert (cursorsOnElements (node PLAY)) as Hwf
    by (unfold cursorsOnElements; simpl; lia).
  split; [exact Hwf|].
  destruct (exhausted_trajectory_ends_loop
              (oneCycle 3000000000) (oneCycle 3010000000) [] (node PLAY)
              Hwf eq_refl eq_refl eq_refl)
    as (s' & final & Hrun & Hcur & _).
  - simpl. lia.
  - simpl. intros e [<- | [<- | [<- | []]]]; simpl; lia.
  - exists s'. split; [exact Hrun | exact Hcur].
Defined.

Lemma paused_loop_keeps_running_witness :
  cursorsOnElements (node PAUSE) /\
  spin [oneCycle 3000000000; oneCycle 3010000000] (node PAUSE) = Unfinished.
Proof.
  assert (cursorsOnElements (node PAUSE)) as Hwf
    by (unfold cursorsOnElements; simpl; lia).
  split; [exact Hwf|].
  apply (paused_loop_keeps_running
           [oneCycle 3000000000; oneCycle 3010000000] (node PAUSE) Hwf).
  - discriminate.
  - simpl. lia.
  - repeat constructor.
Defined.

Lemma failed_scans_publish_idle_once_witness :
  cursorsOnElements (node PLAY) /\
  serviceCallLock (node PLAY) = false /\
  exists s',
    failedScans [(5, 6, 7); (8, 9, 7); (10, 11, 7)] (node PLAY)
      = Returns tt s' /\
    publishedCommands (trace s') = [idleTwistCommand].
Proof.
  assert (cursorsOnElements (node PLAY)) as Hwf
    by (unfold cursorsOnElements; simpl; lia).
  split; [exact Hwf|]. split; [reflexivity|].
  destruct (@failed_scans_publish_idle_once Demo.ext
              (5, 6, 7) [(8, 9, 7); (10, 11, 7)] (node PLAY) Hwf eq_refl)
    as (s' & Hrun & _ & _ & Hpub).
  exists s'. split; [exact Hrun | exact Hpub].
Defined.

Lemma unloaded_poses_or_anchors_are_undefined_witness :
  positions (Repeat_new 0 (Some ["a"%string]) None (Some ["a"%string])
                        0 500000000 1) = [] /\
  spin_body (steady 5)
            (Repeat_new 0 (Some ["a"%string]) None (Some ["a"%string])
                        0 500000000 1) = Undefined.
Proof.
  split; [reflexivity|].
  exact (proj1 (@unloaded_poses_or_anchors_are_undefined Demo.ext
                  (steady 5) 5 6 (fun _ _ => None) 7
                  (Repeat_new 0 (Some ["a"%string]) None (Some ["a"%string])
                              0 500000000 1)
                  (or_introl eq_refl))).
Defined.

(** ** Sim time after a failed correction *)

Section FailedCorrection.

Context {ext : Externals}.

(** X17.  A correction whose service call fails (mutex free, cursors on
    elements) freezes sim time: afterwards [simTime] returns the same value
    at every clock reading.  From PLAY that value is the sim time of the
    moment of the failure, and from ERROR it is the sim time the node had.
    From PAUSE it is the paused sim time plus the wall time since the last
    PLAY segment began: the base time moves although nothing was playing. *)
Theorem sim_time_after_failed_correction
        (now now_fail later : Time) (reading : Cloud) (s : Repeat) :
  cursorsOnElements s ->
  serviceCallLock s = false ->
  exists s',
    updateError now now_fail (fun _ _ => None) reading s = Returns tt s' /\
    currentStatus s' = ERROR /\
    simTime later s' =
      Returns match currentStatus s with
              | ERROR => baseSimTime s
              | _ => baseSimTime s + (now_fail - timePlaybackStarted s)
              end s' /\
    (currentStatus s = PLAY ->
     simTime now_fail s
       = Returns (baseSimTime s + (now_fail - timePlaybackStarted s)) s) /\
    (currentStatus s <> PLAY ->
     simTime now_fail s = Returns (baseSimTime s) s).
Proof.
  intros Hwf Hlock.
  destruct (updateError_advances now now_fail (fun _ _ => None) reading
                                 s Hwf)
    as (s' & Hrun & _ & _ & _ & _ & Hfail).
  destruct (Hfail Hlock (fun _ _ => eq_refl)) as (Hst & Hbase & _).
  exists s'. split; [assumption|]. split; [assumption|].
  rewrite !simTime_returns, Hst, Hbase.
  split; [reflexivity|].
  split.
  - intros ->. reflexivity.
  - intros Hne. destruct (currentStatus s); [congruence | reflexivity..].
Qed.

End FailedCorrection.

Lemma sim_time_after_failed_correction_witness :
  cursorsOnElements (node PAUSE) /\
  serviceCallLock (node PAUSE) = false /\
  exists s',
    updateError 100 101 (fun _ _ => None) 7 (node PAUSE) = Returns tt s' /\
    simTime 200 s' = Returns 101 s'.
Proof.
  assert (cursorsOnElements (node PAUSE)) as Hwf
    by (unfold cursorsOnElements; simpl; lia).
  split; [exact Hwf|]. split; [reflexivity|].
  destruct (@sim_time_after_failed_correction Demo.ext
              100 101 200 7 (node PAUSE) Hwf eq_refl)
    as (s' & Hrun & _ & Hsim & _).
  exists s'. split; [exact Hrun | exact Hsim].
Defined.
